(** * mpf.devices.driver: the Driver device and its ReconfiguredDriver view

    A shallow embedding of [src/mpf/devices/driver.py].  Python objects are
    records, attribute writes are explicit state passing, exceptions are a
    result type threaded through a small state-and-error monad (a raised
    exception keeps every mutation made before it, as in Python). *)

From Stdlib Require Import ZArith PrimFloat SpecFloat FloatOps.
From stdpp Require Import gmap strings list fin_maps pretty.

Open Scope Z_scope.

(** ** Python values *)

Module Py.

(** The values the driver code handles: [None], [int] (arbitrary precision),
    [float] (IEEE binary64) and [str].  [bool] is a subclass of [int] in
    Python ([True == 1], [isinstance(True, int)]), so booleans are the
    integers 0 and 1 here. *)
Inductive value : Type :=
| VNone
| VInt (z : Z)
| VFloat (f : float)
| VStr (s : string).

Inductive exn : Type :=
| AssertionError (msg : string)
| KeyError (key : string)
| TypeError
| OverflowError
| ZeroDivisionError.

Inductive result (A : Type) : Type :=
| Ok (a : A)
| Raise (e : exn).
Arguments Ok {A} a.
Arguments Raise {A} e.

(** [bool(v)] *)
Definition truthy (v : value) : bool :=
  match v with
  | VNone => false
  | VInt z => negb (z =? 0)
  | VFloat f => negb (PrimFloat.eqb f 0)
  | VStr s => negb (String.eqb s "")
  end.

(** [v is None] *)
Definition is_None (v : value) : bool :=
  match v with VNone => true | _ => false end.

(** [isinstance(v, int)] and [isinstance(v, str)] *)
Definition isinstance_int (v : value) : bool :=
  match v with VInt _ => true | _ => false end.

Definition isinstance_str (v : value) : bool :=
  match v with VStr _ => true | _ => false end.

(** [float(z)]: round to nearest even, [OverflowError] when the integer is
    too large for a binary64. *)
Definition float_of_int (z : Z) : result float :=
  match binary_normalize prec emax z 0 false with
  | S754_infinity _ => Raise OverflowError
  | S754_nan => Raise OverflowError
  | sf => Ok (SF2Prim sf)
  end.

(** Python compares an [int] with a [float] exactly, without converting the
    integer.  [None] stands for an unordered pair (NaN). *)
Definition float_compare_int (f : float) (z : Z) : option comparison :=
  match Prim2SF f with
  | S754_nan => None
  | S754_infinity s => Some (if s then Lt else Gt)
  | S754_zero _ => Some (0 ?= z)
  | S754_finite s m e =>
      let n := if s then Z.neg m else Z.pos m in
      Some (if 0 <=? e then (n * 2 ^ e ?= z) else (n ?= z * 2 ^ (- e)))
  end.

Definition is_Eq (c : option comparison) : bool :=
  match c with Some Eq => true | _ => false end.

Definition is_Ge (c : option comparison) : bool :=
  match c with Some Eq | Some Gt => true | _ => false end.

Definition is_Le (c : option comparison) : bool :=
  match c with Some Eq | Some Lt => true | _ => false end.

(** [a == b] *)
Definition eq (a b : value) : bool :=
  match a, b with
  | VNone, VNone => true
  | VInt x, VInt y => x =? y
  | VFloat x, VFloat y => PrimFloat.eqb x y
  | VFloat x, VInt y => is_Eq (float_compare_int x y)
  | VInt x, VFloat y => is_Eq (float_compare_int y x)
  | VStr x, VStr y => String.eqb x y
  | _, _ => false
  end.

(** [a != b] *)
Definition ne (a b : value) : bool := negb (eq a b).

(** [a >= b]; ordering a number against [None] or a [str] is a
    [TypeError]. *)
Definition ge (a b : value) : result bool :=
  match a, b with
  | VInt x, VInt y => Ok (y <=? x)
  | VFloat x, VFloat y => Ok (PrimFloat.leb y x)
  | VFloat x, VInt y => Ok (is_Ge (float_compare_int x y))
  | VInt x, VFloat y => Ok (is_Le (float_compare_int y x))
  | VStr x, VStr y => Ok (String.leb y x)
  | _, _ => Raise TypeError
  end.

Fixpoint repeat_str (n : nat) (s : string) : string :=
  match n with
  | O => ""
  | S n' => s +:+ repeat_str n' s
  end.

(** [a * b] *)
Definition mul (a b : value) : result value :=
  match a, b with
  | VInt x, VInt y => Ok (VInt (x * y))
  | VInt x, VFloat y =>
      match float_of_int x with
      | Ok fx => Ok (VFloat (fx * y))
      | Raise e => Raise e
      end
  | VFloat x, VInt y =>
      match float_of_int y with
      | Ok fy => Ok (VFloat (x * fy))
      | Raise e => Raise e
      end
  | VFloat x, VFloat y => Ok (VFloat (x * y))
  | VInt x, VStr s => Ok (VStr (repeat_str (Z.to_nat x) s))
  | VStr s, VInt x => Ok (VStr (repeat_str (Z.to_nat x) s))
  | _, _ => Raise TypeError
  end.

(** The operand of a float operation, converted as Python does. *)
Definition as_float (a : value) : result float :=
  match a with
  | VInt x => float_of_int x
  | VFloat x => Ok x
  | _ => Raise TypeError
  end.

(** [a / d] for a float divisor [d] *)
Definition truediv (a : value) (d : float) : result value :=
  match as_float a with
  | Ok x => if PrimFloat.eqb d 0 then Raise ZeroDivisionError
            else Ok (VFloat (x / d))
  | Raise e => Raise e
  end.

(** [a + b] *)
Definition add (a : value) (b : value) : result value :=
  match a, b with
  | VInt x, VInt y => Ok (VInt (x + y))
  | VStr x, VStr y => Ok (VStr (x +:+ y))
  | VNone, _ | _, VNone | VStr _, _ | _, VStr _ => Raise TypeError
  | _, _ =>
      match as_float a, as_float b with
      | Ok x, Ok y => Ok (VFloat (x + y))
      | Raise e, _ => Raise e
      | _, Raise e => Raise e
      end
  end.

End Py.

Import Py.

(** ** Objects and the machine around them *)

(** [self] inside a method of [Driver]: the driver itself, or a
    [ReconfiguredDriver] wrapped around it.  [ReconfiguredDriver] subclasses
    [Driver], so every [Driver] method runs with the view as [self]. *)
Inductive receiver : Type :=
| the_driver
| the_reconfigured.

(** A location of a [dict] object in the heap. *)
Abbreviation loc := positive.

Record Machine : Type := {
  clock : float;                      (* machine.clock.get_time() *)
  default_pulse_ms : value            (* machine.config['mpf']['default_pulse_ms'] *)
}.

Record Platform : Type := {
  platform_id : nat;                  (* identity of the platform object *)
  max_pulse : Z;                      (* platform.features['max_pulse'] *)
  hw_pulse_actual : receiver -> value -> value
                                      (* what hw_driver.pulse(coil, ms) returns *)
}.

Record Switch : Type := {
  switch_name : string;
  switch_platform : nat
}.

(** Instance attributes of a [Driver] after [__init__] and [_initialize]. *)
Record Driver : Type := {
  name : string;
  config : loc;
  time_last_changed : value;
  time_when_done : value
}.

(** Instance attributes of a [ReconfiguredDriver].  [__init__] does not call
    the parent's, so the two time attributes are absent until a method
    assigns them on the view. *)
Record ReconfiguredDriver : Type := {
  _config_overwrite : gmap string value;
  own_time_last_changed : option value;
  own_time_when_done : option value
}.

Inductive callback : Type :=
| bound_disable (self : receiver)     (* the bound method self.disable *)
| foreign_callback (tag : nat).       (* a callback of some other client *)

Record delay : Type := {
  delay_name : string;
  delay_ms : value;
  delay_callback : callback
}.

Inductive hw_command : Type :=
| hw_enable (coil : receiver)
| hw_disable (coil : receiver)
| hw_pulse (coil : receiver) (milliseconds : value).

Inductive platform_call : Type :=
| pulse_on_hit_and_release_rule (sw : Switch) (coil : receiver)
| pulse_on_hit_and_enable_and_release_rule (sw : Switch) (coil : receiver)
| pulse_on_hit_rule (sw : Switch) (coil : receiver)
| clear_rule (sw : Switch) (coil : receiver).

Inductive log_record : Type :=
| log_enabling
| log_disabling
| log_pulsing (milliseconds power : value)
| log_enabling_for (milliseconds power : value).

Record world : Type := {
  machine : Machine;
  platform : Platform;
  driver : Driver;
  reconfigured : ReconfiguredDriver;
  store : gmap loc (gmap string value);   (* the dict objects *)
  delays : list delay;                    (* machine.delay *)
  hw_log : list hw_command;               (* commands sent to hw_driver *)
  platform_log : list platform_call;      (* rule calls made on the platform *)
  debug_log : list log_record             (* self.log.debug *)
}.

Definition with_machine (m : Machine) (w : world) : world :=
  {| machine := m; platform := platform w; driver := driver w;
     reconfigured := reconfigured w; store := store w; delays := delays w;
     hw_log := hw_log w; platform_log := platform_log w;
     debug_log := debug_log w |}.

Definition with_driver (d : Driver) (w : world) : world :=
  {| machine := machine w; platform := platform w; driver := d;
     reconfigured := reconfigured w; store := store w; delays := delays w;
     hw_log := hw_log w; platform_log := platform_log w;
     debug_log := debug_log w |}.

Definition with_reconfigured (r : ReconfiguredDriver) (w : world) : world :=
  {| machine := machine w; platform := platform w; driver := driver w;
     reconfigured := r; store := store w; delays := delays w;
     hw_log := hw_log w; platform_log := platform_log w;
     debug_log := debug_log w |}.

Definition with_store (s : gmap loc (gmap string value)) (w : world) : world :=
  {| machine := machine w; platform := platform w; driver := driver w;
     reconfigured := reconfigured w; store := s; delays := delays w;
     hw_log := hw_log w; platform_log := platform_log w;
     debug_log := debug_log w |}.

Definition with_delays (ds : list delay) (w : world) : world :=
  {| machine := machine w; platform := platform w; driver := driver w;
     reconfigured := reconfigured w; store := store w; delays := ds;
     hw_log := hw_log w; platform_log := platform_log w;
     debug_log := debug_log w |}.

Definition with_hw_log (l : list hw_command) (w : world) : world :=
  {| machine := machine w; platform := platform w; driver := driver w;
     reconfigured := reconfigured w; store := store w; delays := delays w;
     hw_log := l; platform_log := platform_log w;
     debug_log := debug_log w |}.

Definition with_platform_log (l : list platform_call) (w : world) : world :=
  {| machine := machine w; platform := platform w; driver := driver w;
     reconfigured := reconfigured w; store := store w; delays := delays w;
     hw_log := hw_log w; platform_log := l;
     debug_log := debug_log w |}.

Definition with_debug_log (l : list log_record) (w : world) : world :=
  {| machine := machine w; platform := platform w; driver := driver w;
     reconfigured := reconfigured w; store := store w; delays := delays w;
     hw_log := hw_log w; platform_log := platform_log w;
     debug_log := l |}.

(** ** The monad of method bodies *)

Definition M (A : Type) : Type := world -> world * result A.

Definition ret {A} (a : A) : M A := fun w => (w, Ok a).

Definition raise {A} (e : exn) : M A := fun w => (w, Raise e).

Definition bind {A B} (c : M A) (k : A -> M B) : M B :=
  fun w =>
    match c w with
    | (w', Ok a) => k a w'
    | (w', Raise e) => (w', Raise e)
    end.

Definition lift {A} (r : result A) : M A := fun w => (w, r).

Definition gets {A} (f : world -> A) : M A := fun w => (w, Ok (f w)).

Definition modify (f : world -> world) : M unit := fun w => (f w, Ok tt).

Declare Scope py_scope.
Delimit Scope py_scope with py.
Notation "x <- c ;; k" := (bind c (fun x => k))
  (at level 100, c at next level, right associativity) : py_scope.
Notation "c ;;; k" := (bind c (fun _ => k))
  (at level 100, right associativity) : py_scope.
Open Scope py_scope.

(** ** machine.delay *)

Module Delay.

(** The pending callbacks are kept as a list, in the order they were
    registered, so that nothing but the operations below keeps a name from
    occurring twice. *)
Definition named (nm : string) (d : delay) : bool :=
  String.eqb (delay_name d) nm.

(** Modelled from the spec: remove-by-name of the delay scheduler
    ([machine.delay], the DelayManager of mpf.core, which is not among the
    sources).  It cancels the pending callback of that name; with no such
    callback pending it does nothing and raises nothing. *)
Definition remove (nm : string) (ds : list delay) : list delay :=
  List.filter (fun d => negb (named nm d)) ds.

(** Modelled from the spec: reset-by-name of the delay scheduler
    ([machine.delay], not among the sources).  It schedules the callback
    after [ms] milliseconds under the name, replacing a pending callback of
    the same name. *)
Definition reset (nm : string) (ms : value) (cb : callback)
    (ds : list delay) : list delay :=
  remove nm ds ++
  [{| delay_name := nm; delay_ms := ms; delay_callback := cb |}].

(** The callbacks pending under a name. *)
Definition pending (nm : string) (ds : list delay) : list delay :=
  List.filter (named nm) ds.

End Delay.

Arguments Delay.remove : simpl never.
Arguments Delay.reset : simpl never.
Arguments Delay.pending : simpl never.

(** ** Attribute access *)

(** [self.name]: an instance attribute of the driver; the view has none and
    [__getattr__] forwards to the wrapped driver. *)
Definition self_name (self : receiver) : M string :=
  gets (fun w => name (driver w)).

(** [self.time_last_changed] *)
Definition attr_time_last_changed (self : receiver) (w : world) : value :=
  match self with
  | the_driver => time_last_changed (driver w)
  | the_reconfigured =>
      match own_time_last_changed (reconfigured w) with
      | Some v => v
      | None => time_last_changed (driver w)        (* __getattr__ *)
      end
  end.

Definition get_time_last_changed (self : receiver) : M value :=
  gets (attr_time_last_changed self).

(** [self.time_last_changed = v] *)
Definition set_time_last_changed (self : receiver) (v : value) : M unit :=
  modify (fun w =>
    match self with
    | the_driver =>
        with_driver
          {| name := name (driver w); config := config (driver w);
             time_last_changed := v;
             time_when_done := time_when_done (driver w) |} w
    | the_reconfigured =>
        with_reconfigured
          {| _config_overwrite := _config_overwrite (reconfigured w);
             own_time_last_changed := Some v;
             own_time_when_done := own_time_when_done (reconfigured w) |} w
    end).

(** [self.time_when_done] *)
Definition attr_time_when_done (self : receiver) (w : world) : value :=
  match self with
  | the_driver => time_when_done (driver w)
  | the_reconfigured =>
      match own_time_when_done (reconfigured w) with
      | Some v => v
      | None => time_when_done (driver w)           (* __getattr__ *)
      end
  end.

Definition get_time_when_done (self : receiver) : M value :=
  gets (attr_time_when_done self).

(** [self.time_when_done = v] *)
Definition set_time_when_done (self : receiver) (v : value) : M unit :=
  modify (fun w =>
    match self with
    | the_driver =>
        with_driver
          {| name := name (driver w); config := config (driver w);
             time_last_changed := time_last_changed (driver w);
             time_when_done := v |} w
    | the_reconfigured =>
        with_reconfigured
          {| _config_overwrite := _config_overwrite (reconfigured w);
             own_time_last_changed := own_time_last_changed (reconfigured w);
             own_time_when_done := Some v |} w
    end).

(** The [dict] object at a location. *)
Definition deref (l : loc) (w : world) : gmap string value :=
  default ∅ (store w !! l).

(** [d[key]] *)
Definition getitem (l : loc) (key : string) : M value :=
  fun w =>
    match deref l w !! key with
    | Some v => (w, Ok v)
    | None => (w, Raise (KeyError key))
    end.

(** [d[key] = v], in place *)
Definition setitem (l : loc) (key : string) (v : value) (w : world) : world :=
  with_store (<[l := <[key := v]> (deref l w)]> (store w)) w.

(** [copy.deepcopy(d)]: a new dict object with the same items.  The values
    of a configuration are scalars here, so the copy shares nothing with the
    original. *)
Definition deepcopy (l : loc) : M loc :=
  fun w =>
    let l' := fresh (dom (store w)) in
    (with_store (<[l' := deref l w]> (store w)) w, Ok l').

(** [ReconfiguredDriver.config], the property.  A dict has each key once, so
    the order in which [items()] yields them does not show in the result. *)
Definition ReconfiguredDriver_config : M loc :=
  base <- gets (fun w => config (driver w)) ;;
  config <- deepcopy base ;;
  overwrite <- gets (fun w => _config_overwrite (reconfigured w)) ;;
  modify (fun w =>
    map_fold
      (fun name item w =>
         if negb (is_None item) then setitem config name item w else w)
      w overwrite) ;;;
  ret config.

(** [self.config] *)
Definition self_config (self : receiver) : M loc :=
  match self with
  | the_driver => gets (fun w => config (driver w))
  | the_reconfigured => ReconfiguredDriver_config
  end.

(** ** class Driver *)

(** [Driver.__init__]: the two attributes it sets, next to those the device
    framework provides. *)
Definition Driver_init (nm : string) (cfg : loc) : Driver :=
  {| name := nm; config := cfg;
     time_last_changed := VInt 0;
     time_when_done := VInt 0 |}.

(** [ReconfiguredDriver.__init__] *)
Definition ReconfiguredDriver_init (config_overwrite : gmap string value)
    : ReconfiguredDriver :=
  {| _config_overwrite := config_overwrite;
     own_time_last_changed := None;
     own_time_when_done := None |}.

Definition log_debug (r : log_record) : M unit :=
  modify (fun w => with_debug_log (debug_log w ++ [r]) w).

Definition hw_driver (c : hw_command) : M unit :=
  modify (fun w => with_hw_log (hw_log w ++ [c]) w).

Definition get_time : M value :=
  gets (fun w => VFloat (clock (machine w))).

(** ['{}_timed_enable'.format(self.name)] *)
Definition timer_name (nm : string) : string := nm +:+ "_timed_enable".

Definition enable (self : receiver) : M unit :=
  set_time_when_done self (VInt (-1)) ;;;
  now <- get_time ;;
  set_time_last_changed self now ;;;
  log_debug log_enabling ;;;
  hw_driver (hw_enable self).

Definition disable (self : receiver) : M unit :=
  log_debug log_disabling ;;;
  now <- get_time ;;
  set_time_last_changed self now ;;;
  t <- get_time_last_changed self ;;
  set_time_when_done self t ;;;
  nm <- self_name self ;;
  modify (fun w => with_delays (Delay.remove (timer_name nm) (delays w)) w) ;;;
  hw_driver (hw_disable self).

(** Lines 101-105 of [pulse]: the duration when none (or a falsy one) is
    given. *)
Definition resolve_milliseconds (self : receiver) (milliseconds : value)
    : M value :=
  if negb (truthy milliseconds) then
    c <- self_config self ;;
    p <- getitem c "pulse_ms" ;;
    if truthy p then
      c' <- self_config self ;;
      getitem c' "pulse_ms"
    else
      gets (fun w => default_pulse_ms (machine w))
  else ret milliseconds.

(** Lines 107-110 of [pulse]: the duration and the power after scaling. *)
Definition scale_by_power (milliseconds power : value)
    : result (value * value) :=
  if truthy power && isinstance_int milliseconds then
    match mul milliseconds power with
    | Ok m => Ok (m, power)
    | Raise e => Raise e
    end
  else Ok (milliseconds, VFloat 1).

(** The condition of line 112-113. *)
Definition hardware_timed (max : Z) (milliseconds : value) : bool :=
  isinstance_str milliseconds ||
  (isinstance_int milliseconds &&
   match milliseconds with
   | VInt z => (0 <? z) && (z <=? max)
   | _ => false
   end).

(** [t + (ms / 1000.0)] *)
Definition done_time (t ms : value) : result value :=
  match truediv ms 1000 with
  | Ok q => add t q
  | Raise e => Raise e
  end.

(** [self.time_when_done = self.time_last_changed + (ms / 1000.0)] *)
Definition set_done_after (self : receiver) (ms : value) : M unit :=
  t <- get_time_last_changed self ;;
  d <- lift (done_time t ms) ;;
  set_time_when_done self d.

(** Lines 112-131 of [pulse]: the duration goes to the hardware or to a
    timer, and [time_when_done] follows. *)
Definition pulse_dispatch (self : receiver) (milliseconds power : value)
    : M unit :=
  max <- gets (fun w => max_pulse (platform w)) ;;
  ms_actual <-
    (if hardware_timed max milliseconds then
       log_debug (log_pulsing milliseconds power) ;;;
       hw_driver (hw_pulse self milliseconds) ;;;
       gets (fun w => hw_pulse_actual (platform w) self milliseconds)
     else
       log_debug (log_enabling_for milliseconds power) ;;;
       nm <- self_name self ;;
       modify (fun w =>
         with_delays (Delay.reset (timer_name nm) milliseconds
                        (bound_disable self) (delays w)) w) ;;;
       enable self ;;;
       set_done_after self milliseconds ;;;
       ret milliseconds) ;;
  if ne ms_actual (VInt (-1)) then set_done_after self ms_actual
  else set_time_when_done self (VInt (-1)).

Definition pulse (self : receiver) (milliseconds power : value) : M unit :=
  milliseconds <- resolve_milliseconds self milliseconds ;;
  scaled <- lift (scale_by_power milliseconds power) ;;
  pulse_dispatch self (fst scaled) (snd scaled).

Definition timed_enable (self : receiver) (milliseconds : value) : M unit :=
  pulse self milliseconds VNone.

Definition platform_mismatch : exn :=
  AssertionError "Switch and Coil have to use the same platform".

Definition _check_platform (self : receiver) (switch : Switch) : M unit :=
  p <- gets (fun w => platform_id (platform w)) ;;
  if negb (Nat.eqb p (switch_platform switch)) then raise platform_mismatch
  else ret tt.

Definition platform_do (c : platform_call) : M unit :=
  modify (fun w => with_platform_log (platform_log w ++ [c]) w).

Definition set_pulse_on_hit_and_release_rule (self : receiver)
    (enable_switch : Switch) : M unit :=
  _check_platform self enable_switch ;;;
  platform_do (pulse_on_hit_and_release_rule enable_switch self).

Definition set_pulse_on_hit_and_enable_and_release_rule (self : receiver)
    (enable_switch : Switch) : M unit :=
  _check_platform self enable_switch ;;;
  platform_do (pulse_on_hit_and_enable_and_release_rule enable_switch self).

Definition set_pulse_on_hit_rule (self : receiver)
    (enable_switch : Switch) : M unit :=
  _check_platform self enable_switch ;;;
  platform_do (pulse_on_hit_rule enable_switch self).

Definition clear_hw_rule (self : receiver) (switch : Switch) : M unit :=
  platform_do (clear_rule switch self).

(** ** Callers *)

(** The calls a client makes on a driver or on a view of it. *)
Inductive operation : Type :=
| op_enable
| op_disable
| op_pulse (milliseconds power : value)
| op_timed_enable (milliseconds : value)
| op_set_pulse_on_hit_and_release_rule (sw : Switch)
| op_set_pulse_on_hit_and_enable_and_release_rule (sw : Switch)
| op_set_pulse_on_hit_rule (sw : Switch)
| op_clear_hw_rule (sw : Switch).

Definition invoke (self : receiver) (op : operation) : M unit :=
  match op with
  | op_enable => enable self
  | op_disable => disable self
  | op_pulse ms power => pulse self ms power
  | op_timed_enable ms => timed_enable self ms
  | op_set_pulse_on_hit_and_release_rule sw =>
      set_pulse_on_hit_and_release_rule self sw
  | op_set_pulse_on_hit_and_enable_and_release_rule sw =>
      set_pulse_on_hit_and_enable_and_release_rule self sw
  | op_set_pulse_on_hit_rule sw => set_pulse_on_hit_rule self sw
  | op_clear_hw_rule sw => clear_hw_rule self sw
  end.

(** Modelled from the spec: the scheduler side of a pending callback, which
    is not among the sources.  When a delay comes due the scheduler drops
    it and invokes its callback; which delay comes due, and when, is the
    scheduler's business, so the position of the delay that fires is a
    parameter. *)
Definition fire (i : nat) : M unit :=
  fun w =>
    match delays w !! i with
    | None => (w, Ok tt)
    | Some d =>
        let w' := with_delays (take i (delays w) ++ drop (S i) (delays w)) w in
        match delay_callback d with
        | bound_disable self => disable self w'
        | foreign_callback _ => (w', Ok tt)
        end
    end.

(** What happens to the machine over time: a client calls a method, the
    clock advances, a pending delay fires. *)
Inductive event : Type :=
| call (self : receiver) (op : operation)
| tick (now : float)
| due (i : nat).

(** An exception raised by a call goes to the caller; the objects keep the
    state the call left them in. *)
Definition happen (e : event) (w : world) : world :=
  match e with
  | call self op => fst (invoke self op w)
  | tick now =>
      with_machine {| clock := now;
                      default_pulse_ms := default_pulse_ms (machine w) |} w
  | due i => fst (fire i w)
  end.

Definition run (es : list event) (w : world) : world :=
  fold_left (fun w e => happen e w) es w.

(** The timer name of the actuator, and its pending self-disable timers. *)
Definition own_timer (w : world) : string := timer_name (name (driver w)).

Definition pending_timers (w : world) : list delay :=
  Delay.pending (own_timer w) (delays w).

(** Two worlds with the same objects, up to the dict objects of the
    store. *)
Record same_objects (w1 w : world) : Prop := {
  so_machine : machine w1 = machine w;
  so_platform : platform w1 = platform w;
  so_driver : driver w1 = driver w;
  so_reconfigured : reconfigured w1 = reconfigured w;
  so_delays : delays w1 = delays w;
  so_hw_log : hw_log w1 = hw_log w;
  so_platform_log : platform_log w1 = platform_log w;
  so_debug_log : debug_log w1 = debug_log w
}.

(** From one moment to the next the actuator keeps its timer name, and its
    pending timers do not grow in number unless to one. *)
Definition timers_step (w w' : world) : Prop :=
  own_timer w' = own_timer w /\
  ((length (pending_timers w') <= length (pending_timers w))%nat \/
   (length (pending_timers w') <= 1)%nat).

(** ** The wording of the specification *)

(** "deep-copy the base configuration, then overwrite only the fields
    present with non-null override values": what the merged configuration
    reads under the key [k]. *)
Definition overlaid (ov base : gmap string value) (k : string) : option value :=
  match ov !! k with
  | Some v => if is_None v then base !! k else Some v
  | None => base !! k
  end.

(** "numeric and within the platform's max_pulse ceiling" *)
Definition within_ceiling (max : Z) (d : value) : bool :=
  match d with
  | VInt z => z <=? max
  | VFloat f => is_Le (float_compare_int f max)
  | _ => false
  end.

(** "d exceeds the ceiling" *)
Definition exceeds_ceiling (max : Z) (d : value) : bool :=
  match d with
  | VInt z => max <? z
  | VFloat f => match float_compare_int f max with
                | Some Gt => true
                | _ => false
                end
  | _ => false
  end.

(** "the effective duration" of a pulse and the power "for reporting": the
    duration that went to the hardware driver or to the timer between [w]
    and [w'], and the power in the debug record written with it. *)
Definition pulsed_for (self : receiver) (milliseconds power : value)
    (w w' : world) : Prop :=
  if hardware_timed (max_pulse (platform w)) milliseconds then
    hw_log w' = hw_log w ++ [hw_pulse self milliseconds] /\
    exists rest,
      debug_log w' = debug_log w ++ log_pulsing milliseconds power :: rest
  else
    delays w' =
      Delay.reset (own_timer w) milliseconds (bound_disable self) (delays w) /\
    exists rest,
      debug_log w' =
      debug_log w ++ log_enabling_for milliseconds power :: rest.

(** "a recognized configuration field of the base actuator": a key of the
    driver's validated configuration. *)
Definition recognized (w : world) (key : string) : Prop :=
  is_Some (deref (config (driver w)) w !! key).

(** ** A view and its driver, side by side *)

(** Commands, delays and platform calls carry the object they were issued
    for; [facing] forgets which of the two it was. *)
Definition facing_hw (c : hw_command) : hw_command :=
  match c with
  | hw_enable _ => hw_enable the_driver
  | hw_disable _ => hw_disable the_driver
  | hw_pulse _ ms => hw_pulse the_driver ms
  end.

Definition facing_delay (d : delay) : delay :=
  {| delay_name := delay_name d; delay_ms := delay_ms d;
     delay_callback := match delay_callback d with
                       | bound_disable _ => bound_disable the_driver
                       | foreign_callback t => foreign_callback t
                       end |}.

Definition facing_call (c : platform_call) : platform_call :=
  match c with
  | pulse_on_hit_and_release_rule sw _ =>
      pulse_on_hit_and_release_rule sw the_driver
  | pulse_on_hit_and_enable_and_release_rule sw _ =>
      pulse_on_hit_and_enable_and_release_rule sw the_driver
  | pulse_on_hit_rule sw _ => pulse_on_hit_rule sw the_driver
  | clear_rule sw _ => clear_rule sw the_driver
  end.

(** [forwards wv wb]: a world [wv] in which the view has been used looks,
    through the view, like the world [wb] in which the driver was used
    directly. *)
Record forwards (wv wb : world) : Prop := {
  fw_machine : machine wv = machine wb;
  fw_platform : platform wv = platform wb;
  fw_name : name (driver wv) = name (driver wb);
  fw_delays : facing_delay <$> delays wv = facing_delay <$> delays wb;
  fw_hw_log : facing_hw <$> hw_log wv = facing_hw <$> hw_log wb;
  fw_platform_log :
    facing_call <$> platform_log wv = facing_call <$> platform_log wb;
  fw_debug_log : debug_log wv = debug_log wb;
  fw_time_last_changed :
    attr_time_last_changed the_reconfigured wv =
    attr_time_last_changed the_driver wb;
  fw_time_when_done :
    attr_time_when_done the_reconfigured wv =
    attr_time_when_done the_driver wb
}.

(** The hardware driver answers a pulse for the view as it answers the
    same pulse for the driver. *)
Definition answers_alike (p : Platform) : Prop :=
  forall ms, hw_pulse_actual p the_reconfigured ms =
             hw_pulse_actual p the_driver ms.

(** The operations that take nothing from the configuration: every one but
    a pulse without a duration of its own. *)
Definition configuration_free (op : operation) : bool :=
  match op with
  | op_pulse ms _ => truthy ms
  | op_timed_enable ms => truthy ms
  | _ => true
  end.

(** ** A machine to run on *)

Module Example.

Definition coil_config : gmap string value :=
  <["pulse_ms" := VInt 10]> (<["number" := VStr "A1-B0-3"]> ∅).

Definition the_platform : Platform :=
  {| platform_id := 0%nat; max_pulse := 255;
     hw_pulse_actual := fun _ ms => ms |}.

(** A coil "c_flipper" with [pulse_ms: 10], just constructed, on a platform
    with [max_pulse] 255, and a view of it with [pulse_ms: 50]. *)
Definition machine0 : world :=
  {| machine := {| clock := 12.5; default_pulse_ms := VInt 10 |};
     platform := the_platform;
     driver := Driver_init "c_flipper" 1%positive;
     reconfigured := ReconfiguredDriver_init {["pulse_ms" := VInt 50]};
     store := {[1%positive := coil_config]};
     delays := [];
     hw_log := []; platform_log := []; debug_log := [] |}.

(** The same, with a typo in the key of the view. *)
Definition machine_typo : world :=
  with_reconfigured
    (ReconfiguredDriver_init {["pulse_mss" := VInt 50]}) machine0.

Definition switch_here : Switch :=
  {| switch_name := "s_flipper"; switch_platform := 0%nat |}.

Definition switch_elsewhere : Switch :=
  {| switch_name := "s_remote"; switch_platform := 1%nat |}.

End Example.

(** ** str *)

Module Str.

(** The methods of [str] the two modules use.  Strings are ASCII text:
    [lower] and [upper] move the letters A-Z and a-z and leave every other
    character alone, as Python's do on ASCII strings. *)
Definition lower_char (c : Ascii.ascii) : Ascii.ascii :=
  let n := Ascii.N_of_ascii c in
  if (65 <=? n)%N && (n <=? 90)%N then Ascii.ascii_of_N (n + 32) else c.

Definition upper_char (c : Ascii.ascii) : Ascii.ascii :=
  let n := Ascii.N_of_ascii c in
  if (97 <=? n)%N && (n <=? 122)%N then Ascii.ascii_of_N (n - 32) else c.

(** [s.lower()] *)
Fixpoint lower (s : string) : string :=
  match s with
  | EmptyString => EmptyString
  | String c s' => String (lower_char c) (lower s')
  end.

(** [s.upper()] *)
Fixpoint upper (s : string) : string :=
  match s with
  | EmptyString => EmptyString
  | String c s' => String (upper_char c) (upper s')
  end.

(** [s.replace(' ', '')] *)
Fixpoint without_spaces (s : string) : string :=
  match s with
  | EmptyString => EmptyString
  | String c s' =>
      if Ascii.eqb c Ascii.Space then without_spaces s'
      else String c (without_spaces s')
  end.

(** [sep in s] *)
Fixpoint contains (sep s : string) : bool :=
  String.prefix sep s ||
  match s with
  | EmptyString => false
  | String _ s' => contains sep s'
  end.

Fixpoint drop (n : nat) (s : string) : string :=
  match n, s with
  | O, _ => s
  | S _, EmptyString => EmptyString
  | S n', String _ s' => drop n' s'
  end.

(** The text before and after the first occurrence of [sep] in [s]. *)
Fixpoint partition (sep s : string) : option (string * string) :=
  if String.prefix sep s then Some (EmptyString, drop (String.length sep) s)
  else
    match s with
    | EmptyString => None
    | String c s' =>
        match partition sep s' with
        | Some (a, rest) => Some (String c a, rest)
        | None => None
        end
    end.

Fixpoint split_fuel (fuel : nat) (sep s : string) : list string :=
  match fuel with
  | O => [s]
  | S fuel' =>
      match partition sep s with
      | None => [s]
      | Some (a, rest) => a :: split_fuel fuel' sep rest
      end
  end.

(** [s.split(sep)] for a separator that is not empty: each occurrence found
    from the left takes at least one character, so the length of [s] is
    fuel enough. *)
Definition split (sep s : string) : list string :=
  split_fuel (String.length s) sep s.

(** Every character of [s] satisfies [P]. *)
Fixpoint all_chars (P : Ascii.ascii -> bool) (s : string) : bool :=
  match s with
  | EmptyString => true
  | String c s' => P c && all_chars P s'
  end.

Definition is_space (c : Ascii.ascii) : bool := Ascii.eqb c Ascii.Space.

Definition is_upper (c : Ascii.ascii) : bool :=
  let n := Ascii.N_of_ascii c in (65 <=? n)%N && (n <=? 90)%N.


End Str.

(** ** The rest of the two modules *)

Section Builtins.

(** [str(f)] of a float, the shortest decimal that reads back as [f]: taken
    as given. *)
Variable float_repr : float -> string.

(** [Util.string_to_ms] of mpf.core.utility_functions, which is not among
    the sources: taken as given, with whatever it raises. *)
Variable string_to_ms : string -> result value.

(** [str(v)] *)
Definition str_ (v : value) : string :=
  match v with
  | VNone => "None"
  | VInt z => pretty z
  | VFloat f => float_repr f
  | VStr s => s
  end.

(** [Driver.prepare_config], lines 32-35: the dict is changed in place and
    handed back. *)
Definition prepare_config (config : loc) : M loc :=
  number <- getitem config "number" ;;
  modify (setitem config "number_str" (VStr (Str.upper (str_ number)))) ;;;
  ret config.

(** Line 57 of light_player.py: [str(value).replace(' ', '').lower()]. *)
Definition express_text (v : value) : string :=
  Str.lower (Str.without_spaces (str_ v)).

(** [dict(brightness=value, fade_ms=fade)] *)
Definition express_config (brightness : string) (fade_ms : value)
    : gmap string value :=
  {[ "brightness" := VStr brightness; "fade_ms" := fade_ms ]}.

(** [LightPlayer.get_express_config], lines 56-64.  [composite_value[0]] and
    [composite_value[1]] exist whenever '-f' is in the text
    ([split_has_two] below), so no index is ever out of range. *)
Definition get_express_config (value : Py.value)
    : result (gmap string Py.value) :=
  let value := express_text value in
  if Str.contains "-f" value then
    let composite_value := Str.split "-f" value in
    let value := nth 0 composite_value "" in
    match string_to_ms (nth 1 composite_value "") with
    | Ok fade => Ok (express_config value fade)
    | Raise e => Raise e
    end
  else Ok (express_config value (VInt 0)).

End Builtins.

(** ** What the scheduler holds for the actuator *)

Definition bound_to_disable (d : delay) : bool :=
  match delay_callback d with
  | bound_disable _ => true
  | foreign_callback _ => false
  end.

(** Every delay bound to the actuator's [disable] is under its timer
    name. *)
Definition timers_owned (w : world) : Prop :=
  forall d, In d (delays w) -> bound_to_disable d = true ->
            delay_name d = own_timer w.

(** The events that are no call of a client. *)
Definition scheduler_event (e : event) : bool :=
  match e with
  | call _ _ => false
  | tick _ => true
  | due _ => true
  end.

(** The operations that go to the platform's hardware rules. *)
Definition rule_operation (op : operation) : bool :=
  match op with
  | op_set_pulse_on_hit_and_release_rule _
  | op_set_pulse_on_hit_and_enable_and_release_rule _
  | op_set_pulse_on_hit_rule _
  | op_clear_hw_rule _ => true
  | _ => false
  end.

(** No delay is bound to the actuator's [disable]. *)
Definition no_timed_disable (w : world) : Prop :=
  forall d, In d (delays w) -> bound_to_disable d = false.

(** From [w] to [w'] the actuator keeps its timer name, and a delay of
    [w'] was a delay of [w] or is under that name. *)
Definition delays_from (w w' : world) : Prop :=
  own_timer w' = own_timer w /\
  forall d, In d (delays w') -> In d (delays w) \/ delay_name d = own_timer w.

(** Every dict object of [w] is still there in [w'], with the same items. *)
Definition store_kept (w w' : world) : Prop :=
  forall l d, store w !! l = Some d -> store w' !! l = Some d.

(** * Properties *)

(** ** Python numbers *)

Lemma compare_Gt_above (f : float) (lo hi : Z) :
  lo <= hi ->
  float_compare_int f hi = Some Gt ->
  float_compare_int f lo = Some Gt.
Proof.
  unfold float_compare_int. intros Hle.
  destruct (Prim2SF f) as [s | s | | s m e]; try discriminate.
  - intros H. destruct hi; try discriminate H.
    destruct lo; try lia. reflexivity.
  - destruct s; [discriminate | reflexivity].
  - destruct (0 <=? e) eqn:He; intros [= H]; f_equal;
      apply Z.compare_gt_iff in H; apply Z.compare_gt_iff.
    + lia.
    + apply Z.leb_gt in He.
      assert (0 < 2 ^ (- e)) by (apply Z.pow_pos_nonneg; lia). nia.
Qed.

Lemma exceeds_ceiling_not_minus_one (max : Z) (d : value) :
  0 <= max -> exceeds_ceiling max d = true -> ne d (VInt (-1)) = true.
Proof.
  intros Hmax. destruct d as [ | z | f | s]; cbn; try discriminate.
  - intros H. apply Z.ltb_lt in H. unfold ne. cbn.
    apply negb_true_iff, Z.eqb_neq. lia.
  - destruct (float_compare_int f max) as [[ | | ] | ] eqn:Hc; try discriminate.
    intros _. unfold ne. cbn.
    rewrite (compare_Gt_above f (-1) max) by (lia || assumption).
    reflexivity.
Qed.

Lemma exceeds_ceiling_software (max : Z) (d : value) :
  exceeds_ceiling max d = true -> hardware_timed max d = false.
Proof.
  destruct d as [ | z | f | s]; cbn; try discriminate; [ | reflexivity].
  intros H. apply Z.ltb_lt in H.
  apply andb_false_iff. right. apply Z.leb_gt. lia.
Qed.

(** ** The scheduler *)

Lemma pending_remove (nm : string) (ds : list delay) :
  Delay.pending nm (Delay.remove nm ds) = [].
Proof.
  unfold Delay.pending, Delay.remove.
  induction ds as [ | d ds IH]; cbn; [reflexivity | ].
  destruct (Delay.named nm d) eqn:Hd; cbn; [ | rewrite Hd]; exact IH.
Qed.

Lemma remove_nothing_pending (nm : string) (ds : list delay) :
  Delay.pending nm ds = [] -> Delay.remove nm ds = ds.
Proof.
  unfold Delay.pending, Delay.remove.
  induction ds as [ | d ds IH]; cbn; [reflexivity | ].
  destruct (Delay.named nm d); cbn; [discriminate | ].
  intros H. f_equal. exact (IH H).
Qed.

Lemma pending_app (nm : string) (ds ds' : list delay) :
  Delay.pending nm (ds ++ ds') = Delay.pending nm ds ++ Delay.pending nm ds'.
Proof. unfold Delay.pending. apply List.filter_app. Qed.

Lemma pending_reset (nm : string) (ms : value) (cb : callback) (ds : list delay) :
  Delay.pending nm (Delay.reset nm ms cb ds) =
  [{| delay_name := nm; delay_ms := ms; delay_callback := cb |}].
Proof.
  unfold Delay.reset. rewrite pending_app, pending_remove.
  unfold Delay.pending, Delay.named. cbn. rewrite String.eqb_refl. reflexivity.
Qed.

Lemma remove_other (nm : string) (ds : list delay) (d : delay) :
  delay_name d <> nm -> (In d (Delay.remove nm ds) <-> In d ds).
Proof.
  intros Hne. unfold Delay.remove. rewrite List.filter_In.
  unfold Delay.named. split; [tauto | ].
  intros H. split; [exact H | ].
  apply negb_true_iff, String.eqb_neq, Hne.
Qed.

(** ** enable and disable *)

Section EnableDisable.

Variables (self : receiver) (w : world).

Lemma enable_result : snd (enable self w) = Ok tt.
Proof. destruct self; reflexivity. Qed.

Lemma enable_hw_log :
  hw_log (fst (enable self w)) = hw_log w ++ [hw_enable self].
Proof. destruct self; reflexivity. Qed.

Lemma enable_delays : delays (fst (enable self w)) = delays w.
Proof. destruct self; reflexivity. Qed.

Lemma enable_time_when_done :
  attr_time_when_done self (fst (enable self w)) = VInt (-1).
Proof. destruct self; reflexivity. Qed.

Lemma enable_time_last_changed :
  attr_time_last_changed self (fst (enable self w)) =
  VFloat (clock (machine w)).
Proof. destruct self; reflexivity. Qed.

Lemma disable_result : snd (disable self w) = Ok tt.
Proof. destruct self; reflexivity. Qed.

Lemma disable_delays :
  delays (fst (disable self w)) = Delay.remove (own_timer w) (delays w).
Proof. destruct self; reflexivity. Qed.

Lemma disable_own_timer : own_timer (fst (disable self w)) = own_timer w.
Proof. destruct self; reflexivity. Qed.

Lemma disable_hw_log :
  hw_log (fst (disable self w)) = hw_log w ++ [hw_disable self].
Proof. destruct self; reflexivity. Qed.

Lemma disable_time_last_changed :
  attr_time_last_changed self (fst (disable self w)) =
  VFloat (clock (machine w)).
Proof. destruct self; reflexivity. Qed.

Lemma disable_time_when_done :
  attr_time_when_done self (fst (disable self w)) =
  attr_time_last_changed self (fst (disable self w)).
Proof. destruct self; reflexivity. Qed.

End EnableDisable.

(** C10: a freshly constructed actuator has [time_last_changed == 0] and
    [time_when_done == 0]; the two are equal, which is the "inactive"
    reading, and [time_when_done >= time_last_changed] holds. *)
Theorem fresh_driver_is_inactive (nm : string) (cfg : loc) :
  let d := Driver_init nm cfg in
  time_last_changed d = VInt 0 /\
  time_when_done d = VInt 0 /\
  time_when_done d = time_last_changed d /\
  Py.eq (time_when_done d) (time_last_changed d) = true /\
  Py.ge (time_when_done d) (time_last_changed d) = Ok true.
Proof. cbn. repeat split. Qed.

(** C2, as the code has it: after [enable()] returns, [time_when_done] is
    -1, [time_last_changed] is the clock at the call, the hardware enable
    command has been issued, and the pending delays are as they were:
    [enable] cancels no timer. *)
Theorem enable_spec (self : receiver) (w : world) :
  let w' := fst (enable self w) in
  snd (enable self w) = Ok tt /\
  attr_time_when_done self w' = VInt (-1) /\
  attr_time_last_changed self w' = VFloat (clock (machine w)) /\
  hw_log w' = hw_log w ++ [hw_enable self] /\
  delays w' = delays w.
Proof.
  cbv zeta.
  auto using enable_result, enable_time_when_done, enable_time_last_changed,
    enable_hw_log, enable_delays.
Qed.

(** C2 fails as stated: the timer that [pulse(400)] registered is still
    pending after [enable()]. *)
Lemma enable_leaves_timer_pending :
  let w1 := fst (pulse the_driver (VInt 400) VNone Example.machine0) in
  let w2 := fst (enable the_driver w1) in
  let timer := {| delay_name := "c_flipper_timed_enable";
                  delay_ms := VInt 400;
                  delay_callback := bound_disable the_driver |} in
  pending_timers w1 = [timer] /\
  snd (enable the_driver w1) = Ok tt /\
  pending_timers w2 = [timer].
Proof. vm_compute. repeat split. Qed.

(** C5: after [disable()] returns, [time_last_changed] is the clock at the
    call, [time_when_done] equals it, no self-disable timer of the actuator
    is pending (the others are kept, and with none pending the removal
    changes nothing), and the hardware disable command has been issued. *)
Theorem disable_spec (self : receiver) (w : world) :
  let w' := fst (disable self w) in
  snd (disable self w) = Ok tt /\
  attr_time_last_changed self w' = VFloat (clock (machine w)) /\
  attr_time_when_done self w' = attr_time_last_changed self w' /\
  pending_timers w' = [] /\
  (forall d, delay_name d <> own_timer w -> In d (delays w') <-> In d (delays w)) /\
  (pending_timers w = [] -> delays w' = delays w) /\
  hw_log w' = hw_log w ++ [hw_disable self].
Proof.
  cbv zeta. unfold pending_timers.
  rewrite disable_own_timer, disable_delays.
  repeat apply conj.
  - apply disable_result.
  - apply disable_time_last_changed.
  - apply disable_time_when_done.
  - apply pending_remove.
  - intros d Hd. apply remove_other, Hd.
  - apply remove_nothing_pending.
  - apply disable_hw_log.
Qed.

Lemma disable_spec_witness :
  let w1 := fst (pulse the_driver (VInt 400) VNone Example.machine0) in
  (length (pending_timers w1) = 1%nat /\
   pending_timers (fst (disable the_driver w1)) = []) /\
  (pending_timers Example.machine0 = [] /\
   delays (fst (disable the_driver Example.machine0)) = []).
Proof.
  split.
  - split; [reflexivity | ].
    apply (disable_spec the_driver
             (fst (pulse the_driver (VInt 400) VNone Example.machine0))).
  - split; [reflexivity | ].
    apply (disable_spec the_driver Example.machine0). reflexivity.
Defined.

(** ** Hardware rules *)

Lemma _check_platform_same (self : receiver) (sw : Switch) (w : world) :
  switch_platform sw = platform_id (platform w) ->
  _check_platform self sw w = (w, Ok tt).
Proof.
  intros H. unfold _check_platform, bind, gets. cbn.
  rewrite H, Nat.eqb_refl. reflexivity.
Qed.

Lemma _check_platform_differs (self : receiver) (sw : Switch) (w : world) :
  switch_platform sw <> platform_id (platform w) ->
  _check_platform self sw w = (w, Raise platform_mismatch).
Proof.
  intros H. unfold _check_platform, bind, gets. cbn.
  destruct (Nat.eqb_spec (platform_id (platform w)) (switch_platform sw)) as [E | E].
  - congruence.
  - reflexivity.
Qed.

(** C8: each of the three install calls raises the platform-mismatch error
    (an [AssertionError] in the code) when the switch's platform is not the
    actuator's, before any call on the platform, whose log is unchanged;
    with the same platform it makes the corresponding platform call. *)
Theorem install_rule_checks_platform (self : receiver) (sw : Switch) (w : world) :
  (switch_platform sw <> platform_id (platform w) ->
   set_pulse_on_hit_rule self sw w = (w, Raise platform_mismatch) /\
   set_pulse_on_hit_and_release_rule self sw w = (w, Raise platform_mismatch) /\
   set_pulse_on_hit_and_enable_and_release_rule self sw w =
     (w, Raise platform_mismatch)) /\
  (switch_platform sw = platform_id (platform w) ->
   set_pulse_on_hit_rule self sw w =
     (with_platform_log (platform_log w ++ [pulse_on_hit_rule sw self]) w,
      Ok tt) /\
   set_pulse_on_hit_and_release_rule self sw w =
     (with_platform_log
        (platform_log w ++ [pulse_on_hit_and_release_rule sw self]) w,
      Ok tt) /\
   set_pulse_on_hit_and_enable_and_release_rule self sw w =
     (with_platform_log
        (platform_log w ++ [pulse_on_hit_and_enable_and_release_rule sw self])
        w,
      Ok tt)).
Proof.
  split; intros H.
  - unfold set_pulse_on_hit_rule, set_pulse_on_hit_and_release_rule,
      set_pulse_on_hit_and_enable_and_release_rule, bind.
    rewrite (_check_platform_differs self sw w H). repeat apply conj; reflexivity.
  - unfold set_pulse_on_hit_rule, set_pulse_on_hit_and_release_rule,
      set_pulse_on_hit_and_enable_and_release_rule, bind.
    rewrite (_check_platform_same self sw w H). repeat apply conj; reflexivity.
Qed.

Lemma install_rule_checks_platform_witness :
  (platform_log
     (fst (set_pulse_on_hit_rule the_driver Example.switch_elsewhere
             Example.machine0)) = [] /\
   snd (set_pulse_on_hit_rule the_driver Example.switch_elsewhere
          Example.machine0) = Raise platform_mismatch) /\
  platform_log
    (fst (set_pulse_on_hit_rule the_driver Example.switch_here
            Example.machine0)) =
  [pulse_on_hit_rule Example.switch_here the_driver].
Proof.
  destruct (install_rule_checks_platform the_driver Example.switch_elsewhere
              Example.machine0) as [Hdiff _].
  destruct (install_rule_checks_platform the_driver Example.switch_here
              Example.machine0) as [_ Hsame].
  destruct Hdiff as [E1 _]; [cbn; lia | ].
  destruct Hsame as [E2 _]; [reflexivity | ].
  rewrite E1, E2. repeat apply conj; reflexivity.
Defined.

(** ** The configuration a pulse reads *)

Lemma same_objects_refl (w : world) : same_objects w w.
Proof. split; reflexivity. Qed.

Lemma same_objects_with_store (s : gmap loc (gmap string value)) (w1 w : world) :
  same_objects w1 w -> same_objects (with_store s w1) w.
Proof. intros []. split; assumption. Qed.

Lemma overwrite_same_objects (l : loc) (ov : gmap string value) (w1 w : world) :
  same_objects w1 w ->
  same_objects
    (map_fold
       (fun name item w' =>
          if negb (is_None item) then setitem l name item w' else w')
       w1 ov) w.
Proof.
  intros H.
  apply (map_fold_weak_ind (fun r _ => same_objects r w)); [exact H | ].
  intros k v m r _ IH. destruct (negb (is_None v)); [ | exact IH].
  unfold setitem. apply same_objects_with_store, IH.
Qed.

Lemma ReconfiguredDriver_config_same_objects (w : world) :
  same_objects (fst (ReconfiguredDriver_config w)) w.
Proof.
  unfold ReconfiguredDriver_config, bind, gets, modify, deepcopy, ret. cbn.
  apply overwrite_same_objects, same_objects_with_store, same_objects_refl.
Qed.

Lemma ReconfiguredDriver_config_result (w : world) :
  snd (ReconfiguredDriver_config w) = Ok (fresh (dom (store w))).
Proof. reflexivity. Qed.

Lemma self_config_same_objects (self : receiver) (w : world) :
  same_objects (fst (self_config self w)) w.
Proof.
  destruct self; cbn.
  - apply same_objects_refl.
  - apply ReconfiguredDriver_config_same_objects.
Qed.

Lemma same_objects_trans (w2 w1 w : world) :
  same_objects w2 w1 -> same_objects w1 w -> same_objects w2 w.
Proof. intros [] []. split; congruence. Qed.

Lemma getitem_world (l : loc) (k : string) (w : world) :
  fst (getitem l k w) = w.
Proof. unfold getitem. destruct (deref l w !! k); reflexivity. Qed.

Lemma resolve_milliseconds_same_objects (self : receiver) (ms : value) (w : world) :
  same_objects (fst (resolve_milliseconds self ms w)) w.
Proof.
  unfold resolve_milliseconds.
  destruct (truthy ms); cbn; [apply same_objects_refl | ].
  unfold bind.
  pose proof (self_config_same_objects self w) as H1.
  destruct (self_config self w) as [w1 [c | e]]; cbn in H1; [ | exact H1].
  pose proof (getitem_world c "pulse_ms" w1) as H2.
  destruct (getitem c "pulse_ms" w1) as [w2 [p | e]]; cbn in H2; subst w2;
    [ | exact H1].
  destruct (truthy p); [ | exact H1].
  pose proof (self_config_same_objects self w1) as H3.
  destruct (self_config self w1) as [w3 [c' | e]]; cbn in H3;
    [ | exact (same_objects_trans _ _ _ H3 H1)].
  rewrite (surjective_pairing (getitem c' "pulse_ms" w3)), getitem_world. cbn.
  exact (same_objects_trans _ _ _ H3 H1).
Qed.

Lemma resolve_milliseconds_given (self : receiver) (ms : value) (w : world) :
  truthy ms = true -> resolve_milliseconds self ms w = (w, Ok ms).
Proof. intros H. unfold resolve_milliseconds. rewrite H. reflexivity. Qed.

(** ** pulse *)

Lemma scale_by_power_none (d : value) :
  scale_by_power d VNone = Ok (d, VFloat 1).
Proof. reflexivity. Qed.

Lemma pulse_unfold (self : receiver) (ms power : value) (w w1 : world) (d : value) :
  resolve_milliseconds self ms w = (w1, Ok d) ->
  pulse self ms power w =
  match scale_by_power d power with
  | Ok scaled => pulse_dispatch self (fst scaled) (snd scaled) w1
  | Raise e => (w1, Raise e)
  end.
Proof.
  intros H. unfold pulse, bind at 1. rewrite H.
  unfold bind, lift. destruct (scale_by_power d power); reflexivity.
Qed.

(** The hardware-timed branch, lines 114-116 and 128-131. *)
Lemma pulse_dispatch_hardware (self : receiver) (d p : value) (w : world) :
  hardware_timed (max_pulse (platform w)) d = true ->
  pulse_dispatch self d p w =
  let w1 :=
    with_hw_log (hw_log w ++ [hw_pulse self d])
      (with_debug_log (debug_log w ++ [log_pulsing d p]) w) in
  let ms_actual := hw_pulse_actual (platform w) self d in
  if ne ms_actual (VInt (-1)) then
    match done_time (attr_time_last_changed self w) ms_actual with
    | Ok t => set_time_when_done self t w1
    | Raise e => (w1, Raise e)
    end
  else set_time_when_done self (VInt (-1)) w1.
Proof.
  intros H. unfold pulse_dispatch, bind, gets. cbn. rewrite H. cbn.
  destruct (ne _ _); [ | reflexivity].
  unfold set_done_after, bind, get_time_last_changed, gets, lift. cbn.
  replace (attr_time_last_changed self _) with (attr_time_last_changed self w)
    by (destruct self; reflexivity).
  destruct (done_time _ _); reflexivity.
Qed.

(** The software-timed branch, lines 118-131. *)
Lemma pulse_dispatch_software (self : receiver) (d p : value) (w : world) :
  hardware_timed (max_pulse (platform w)) d = false ->
  pulse_dispatch self d p w =
  let w1 :=
    fst (enable self
           (with_delays
              (Delay.reset (own_timer w) d (bound_disable self) (delays w))
              (with_debug_log (debug_log w ++ [log_enabling_for d p]) w))) in
  match done_time (VFloat (clock (machine w))) d with
  | Ok t =>
      set_time_when_done self (if ne d (VInt (-1)) then t else VInt (-1)) w1
  | Raise e => (w1, Raise e)
  end.
Proof.
  intros H.
  destruct self;
    unfold pulse_dispatch, set_done_after, bind, get_time_last_changed, gets,
      lift; cbn; rewrite H; cbn;
    destruct (done_time (VFloat (clock (machine w))) d) as [t | e] eqn:E;
    cbn; try reflexivity;
    destruct (ne d (VInt (-1))); cbn; rewrite ?E; reflexivity.
Qed.

Lemma hardware_timed_cases (max : Z) (d : value) :
  isinstance_str d = true \/ (exists z, d = VInt z /\ 0 < z <= max) ->
  hardware_timed max d = true.
Proof.
  intros [H | (z & -> & Hz)]; unfold hardware_timed.
  - rewrite H. reflexivity.
  - cbn. apply andb_true_iff. split; [apply Z.ltb_lt | apply Z.leb_le]; lia.
Qed.

Ltac same_objects_rewrite H :=
  let Hm := fresh in let Hp := fresh in let Hd := fresh in
  let Hr := fresh in let Hl := fresh in let Hh := fresh in
  let Hc := fresh in let Hg := fresh in
  destruct H as [Hm Hp Hd Hr Hl Hh Hc Hg];
  unfold pending_timers in *; unfold own_timer in *; cbn;
  rewrite ?Hm, ?Hp, ?Hd, ?Hr, ?Hl, ?Hh, ?Hc, ?Hg.

(** C1, as the code has it: when the duration [d] that [pulse] resolves is
    a string, or an [int] with [0 < d <= max_pulse], the call hands [d] to
    the hardware driver's [pulse], leaves the delays as they were, and sets
    [time_when_done] to -1 if the hardware returned -1 and to
    [time_last_changed + ms_actual / 1000.0] otherwise; when [d] is a number
    above the (non-negative) ceiling, the call enables the hardware, leaves
    exactly one delay under the actuator's timer name, for [d] ms and
    bound to [disable], and sets [time_when_done] to
    [time_last_changed + d / 1000.0].  Where that sum does not exist the call
    raises what the arithmetic raises. *)
Theorem pulse_hardware_or_timer (self : receiver) (ms : value)
    (w w1 : world) (d : value) :
  resolve_milliseconds self ms w = (w1, Ok d) ->
  let max := max_pulse (platform w) in
  let out := pulse self ms VNone w in
  let w' := fst out in
  (isinstance_str d = true \/ (exists z, d = VInt z /\ 0 < z <= max) ->
   let ms_actual := hw_pulse_actual (platform w) self d in
   hw_log w' = hw_log w ++ [hw_pulse self d] /\
   delays w' = delays w /\
   attr_time_last_changed self w' = attr_time_last_changed self w /\
   if Py.eq ms_actual (VInt (-1)) then
     snd out = Ok tt /\ attr_time_when_done self w' = VInt (-1)
   else
     match done_time (attr_time_last_changed self w') ms_actual with
     | Ok t => snd out = Ok tt /\ attr_time_when_done self w' = t
     | Raise e => snd out = Raise e
     end) /\
  (0 <= max -> exceeds_ceiling max d = true ->
   hw_log w' = hw_log w ++ [hw_enable self] /\
   delays w' = Delay.reset (own_timer w) d (bound_disable self) (delays w) /\
   pending_timers w' =
     [{| delay_name := own_timer w; delay_ms := d;
         delay_callback := bound_disable self |}] /\
   attr_time_last_changed self w' = VFloat (clock (machine w)) /\
   match done_time (attr_time_last_changed self w') d with
   | Ok t => snd out = Ok tt /\ attr_time_when_done self w' = t
   | Raise e => snd out = Raise e
   end).
Proof.
  intros Hres. cbv zeta.
  pose proof (resolve_milliseconds_same_objects self ms w) as Hso.
  rewrite Hres in Hso. cbn in Hso.
  rewrite (pulse_unfold self ms VNone w w1 d Hres), scale_by_power_none. cbn [fst snd].
  split.
  - intros Hd. apply (hardware_timed_cases (max_pulse (platform w))) in Hd.
    rewrite pulse_dispatch_hardware
      by (rewrite (so_platform _ _ Hso); exact Hd).
    cbv zeta. unfold ne.
    replace (platform w1) with (platform w) by (symmetry; apply Hso).
    destruct (Py.eq (hw_pulse_actual (platform w) self d) (VInt (-1))); cbn [negb].
    + destruct self; same_objects_rewrite Hso; repeat apply conj; reflexivity.
    + replace (attr_time_last_changed self w1)
        with (attr_time_last_changed self w)
        by (destruct self; same_objects_rewrite Hso; reflexivity).
      destruct (done_time (attr_time_last_changed self w) _) as [t | e] eqn:E;
        destruct self; same_objects_rewrite Hso; cbn in E; rewrite ?E;
        repeat apply conj; reflexivity.
  - intros Hmax Hd.
    pose proof (exceeds_ceiling_not_minus_one _ _ Hmax Hd) as Hne.
    apply exceeds_ceiling_software in Hd.
    rewrite pulse_dispatch_software
      by (rewrite (so_platform _ _ Hso); exact Hd).
    cbv zeta. rewrite Hne.
    replace (machine w1) with (machine w) by (symmetry; apply Hso).
    destruct (done_time (VFloat (clock (machine w))) d) as [t | e] eqn:E;
      destruct self; same_objects_rewrite Hso; rewrite ?E, ?pending_reset;
      repeat apply conj; reflexivity.
Qed.

Lemma pulse_hardware_or_timer_witness :
  let by_default := pulse the_driver VNone VNone Example.machine0 in
  let long := pulse the_driver (VInt 400) VNone Example.machine0 in
  (hw_log (fst by_default) = [hw_pulse the_driver (VInt 10)] /\
   delays (fst by_default) = [] /\
   attr_time_when_done the_driver (fst by_default) = VFloat (0 + 10 / 1000)) /\
  (hw_log (fst long) = [hw_enable the_driver] /\
   pending_timers (fst long) =
     [{| delay_name := "c_flipper_timed_enable"; delay_ms := VInt 400;
         delay_callback := bound_disable the_driver |}] /\
   attr_time_when_done the_driver (fst long) = VFloat (12.5 + 400 / 1000)).
Proof.
  cbv zeta. split.
  - destruct (pulse_hardware_or_timer the_driver VNone Example.machine0
                Example.machine0 (VInt 10) eq_refl) as [Hhw _].
    destruct Hhw as (H1 & H2 & _ & H3).
    + right. exists 10. split; [reflexivity | cbn; lia].
    + rewrite H1, H2. repeat apply conj; [reflexivity | reflexivity | ].
      apply H3.
  - destruct (pulse_hardware_or_timer the_driver (VInt 400) Example.machine0
                Example.machine0 (VInt 400) eq_refl) as [_ Hsw].
    destruct Hsw as (H1 & _ & H2 & H3 & H4).
    + cbn; lia.
    + reflexivity.
    + rewrite H1, H2. repeat apply conj; [reflexivity | reflexivity | ].
      rewrite H3 in H4. apply H4.
Defined.

(** C1 fails as stated: 50.0 is numeric and within the ceiling of 255, yet
    [pulse(50.0)] never reaches the hardware driver's [pulse]; it enables
    the driver and registers a timer. *)
Lemma pulse_float_within_ceiling_is_software_timed :
  let out := pulse the_driver (VFloat 50) VNone Example.machine0 in
  within_ceiling (max_pulse (platform Example.machine0)) (VFloat 50) = true /\
  snd out = Ok tt /\
  hw_log (fst out) = [hw_enable the_driver] /\
  delays (fst out) =
    [{| delay_name := "c_flipper_timed_enable"; delay_ms := VFloat 50;
        delay_callback := bound_disable the_driver |}].
Proof. vm_compute. repeat apply conj; reflexivity. Qed.

(** The same for an [int] that is not positive: the guard of line 113 asks
    for [0 < milliseconds]. *)
Example pulse_negative_int_is_software_timed :
  let out := pulse the_driver (VInt (-5)) VNone Example.machine0 in
  within_ceiling (max_pulse (platform Example.machine0)) (VInt (-5)) = true /\
  hw_log (fst out) = [hw_enable the_driver] /\
  delays (fst out) =
    [{| delay_name := "c_flipper_timed_enable"; delay_ms := VInt (-5);
        delay_callback := bound_disable the_driver |}].
Proof. vm_compute. repeat apply conj; reflexivity. Qed.

(** ** Power *)

Lemma pulse_dispatch_pulsed_for (self : receiver) (m p : value) (w1 w : world) :
  same_objects w1 w ->
  pulsed_for self m p w (fst (pulse_dispatch self m p w1)).
Proof.
  intros Hso. unfold pulsed_for.
  destruct (hardware_timed (max_pulse (platform w)) m) eqn:Hd.
  - rewrite pulse_dispatch_hardware
      by (rewrite (so_platform _ _ Hso); exact Hd).
    cbv zeta.
    destruct (ne _ _); [destruct (done_time _ _) | ];
      destruct self; same_objects_rewrite Hso;
      (split; [reflexivity | exists []; reflexivity]).
  - rewrite pulse_dispatch_software
      by (rewrite (so_platform _ _ Hso); exact Hd).
    cbv zeta.
    destruct (done_time _ _);
      destruct self; same_objects_rewrite Hso;
      (split; [reflexivity | ]); exists [log_enabling];
      rewrite <- app_assoc; reflexivity.
Qed.

(** C4, as the code has it: when power is given and not zero and the
    resolved duration is an [int], the pulse goes out for the duration
    times the power; when the resolved duration is not an [int] (a string,
    or a float), or power is absent or zero, the duration is left as it is
    and the power is reported as 1.0. *)
Theorem pulse_scales_int_by_power (self : receiver) (ms power : value)
    (w w1 : world) (d : value) :
  resolve_milliseconds self ms w = (w1, Ok d) ->
  let w' := fst (pulse self ms power w) in
  (truthy power = true -> isinstance_int d = true ->
   forall m, Py.mul d power = Ok m -> pulsed_for self m power w w') /\
  (isinstance_int d = false -> pulsed_for self d (VFloat 1) w w') /\
  (truthy power = false -> pulsed_for self d (VFloat 1) w w').
Proof.
  intros Hres. cbv zeta.
  pose proof (resolve_milliseconds_same_objects self ms w) as Hso.
  rewrite Hres in Hso. cbn in Hso.
  rewrite (pulse_unfold self ms power w w1 d Hres). unfold scale_by_power.
  repeat apply conj.
  - intros Hp Hd m Hm. rewrite Hp, Hd, Hm. cbn.
    apply pulse_dispatch_pulsed_for, Hso.
  - intros Hd. rewrite Hd, andb_false_r. cbn.
    apply pulse_dispatch_pulsed_for, Hso.
  - intros Hp. rewrite Hp. cbn.
    apply pulse_dispatch_pulsed_for, Hso.
Qed.

Lemma pulse_scales_int_by_power_witness :
  let half := pulse the_driver (VInt 100) (VFloat 0.5) Example.machine0 in
  let named :=
    pulse the_driver (VStr "named-hardware-profile") (VFloat 0.5)
      Example.machine0 in
  (Py.mul (VInt 100) (VFloat 0.5) = Ok (VFloat 50) /\
   pulsed_for the_driver (VFloat 50) (VFloat 0.5) Example.machine0 (fst half)) /\
  pulsed_for the_driver (VStr "named-hardware-profile") (VFloat 1)
    Example.machine0 (fst named).
Proof.
  cbv zeta. split.
  - split; [reflexivity | ].
    apply (pulse_scales_int_by_power the_driver (VInt 100) (VFloat 0.5)
             Example.machine0 Example.machine0 (VInt 100) eq_refl);
      reflexivity.
  - destruct (pulse_scales_int_by_power the_driver
                (VStr "named-hardware-profile") (VFloat 0.5)
                Example.machine0 Example.machine0
                (VStr "named-hardware-profile") eq_refl) as (_ & H & _).
    apply H. reflexivity.
Defined.

(** C4 fails as stated: 12.5 is a plain number and a power of 0.5 is
    supplied, yet the pulse goes out for 12.5 ms, not 6.25, and the power
    is reported as 1.0. *)
Lemma pulse_float_duration_is_not_scaled :
  let out := pulse the_driver (VFloat 12.5) (VFloat 0.5) Example.machine0 in
  snd out = Ok tt /\
  delays (fst out) =
    [{| delay_name := "c_flipper_timed_enable"; delay_ms := VFloat 12.5;
        delay_callback := bound_disable the_driver |}] /\
  debug_log (fst out) =
    [log_enabling_for (VFloat 12.5) (VFloat 1); log_enabling].
Proof. vm_compute. repeat apply conj; reflexivity. Qed.

(** A power of zero counts as no power: the pulse is a full one. *)
Example pulse_zero_power_is_full_power :
  let out := pulse the_driver (VInt 100) (VFloat 0) Example.machine0 in
  hw_log (fst out) = [hw_pulse the_driver (VInt 100)] /\
  debug_log (fst out) = [log_pulsing (VInt 100) (VFloat 1)].
Proof. vm_compute. repeat apply conj; reflexivity. Qed.

(** With a float power the product is a float, which line 113 sends to
    the timer: [pulse(100, power=0.5)] runs for 50.0 ms, timed by
    software. *)
Example pulse_half_power :
  let out := pulse the_driver (VInt 100) (VFloat 0.5) Example.machine0 in
  hw_log (fst out) = [hw_enable the_driver] /\
  delays (fst out) =
    [{| delay_name := "c_flipper_timed_enable"; delay_ms := VFloat 50;
        delay_callback := bound_disable the_driver |}] /\
  debug_log (fst out) =
    [log_enabling_for (VFloat 50) (VFloat 0.5); log_enabling] /\
  time_when_done (driver (fst out)) = VFloat (12.5 + 50 / 1000).
Proof. vm_compute. repeat apply conj; reflexivity. Qed.

(** ** The configuration of a view *)

Lemma deref_setitem (l : loc) (k : string) (v : value) (w : world) :
  deref l (setitem l k v w) = <[k := v]> (deref l w).
Proof.
  unfold deref at 1, setitem. cbn. rewrite lookup_insert_eq. reflexivity.
Qed.

Lemma store_setitem_other (l l0 : loc) (k : string) (v : value) (w : world) :
  l0 <> l -> store (setitem l k v w) !! l0 = store w !! l0.
Proof. intros H. unfold setitem. cbn. rewrite lookup_insert_ne; congruence. Qed.

Lemma overwrite_loop (l : loc) (ov : gmap string value) (w1 : world) :
  let w2 :=
    map_fold
      (fun name item w' =>
         if negb (is_None item) then setitem l name item w' else w')
      w1 ov in
  (forall l0, l0 <> l -> store w2 !! l0 = store w1 !! l0) /\
  (forall k, deref l w2 !! k = overlaid ov (deref l w1) k).
Proof.
  cbv zeta.
  apply (map_fold_weak_ind
           (fun r m =>
              (forall l0, l0 <> l -> store r !! l0 = store w1 !! l0) /\
              (forall k, deref l r !! k = overlaid m (deref l w1) k))).
  - split; [reflexivity | ]. intros k. unfold overlaid.
    rewrite lookup_empty. reflexivity.
  - intros i x m r Hi [IHs IHd]. split.
    + intros l0 Hl0. destruct (is_None x); cbn [negb]; [apply IHs, Hl0 | ].
      rewrite store_setitem_other by exact Hl0. apply IHs, Hl0.
    + intros k. unfold overlaid. destruct (decide (i = k)) as [-> | Hne].
      * rewrite lookup_insert_eq.
        destruct (is_None x); cbn [negb].
        -- rewrite IHd. unfold overlaid. rewrite Hi. reflexivity.
        -- rewrite deref_setitem, lookup_insert_eq. reflexivity.
      * rewrite lookup_insert_ne by exact Hne.
        destruct (is_None x); cbn [negb]; [apply IHd | ].
        rewrite deref_setitem, lookup_insert_ne by exact Hne. apply IHd.
Qed.

Lemma ReconfiguredDriver_config_store (w : world) :
  let l := fresh (dom (store w)) in
  let w' := fst (ReconfiguredDriver_config w) in
  store w !! l = None /\
  (forall l0, l0 <> l -> store w' !! l0 = store w !! l0) /\
  (forall k,
     deref l w' !! k =
     overlaid (_config_overwrite (reconfigured w))
       (deref (config (driver w)) w) k).
Proof.
  cbv zeta.
  assert (Hfresh : store w !! fresh (dom (store w)) = None).
  { apply not_elem_of_dom, is_fresh. }
  split; [exact Hfresh | ].
  unfold ReconfiguredDriver_config, bind, gets, modify, deepcopy, ret. cbn.
  set (l := fresh (dom (store w))) in *.
  set (w1 := with_store (<[l := deref (config (driver w)) w]> (store w)) w).
  destruct (overwrite_loop l (_config_overwrite (reconfigured w)) w1)
    as [Hs Hd].
  split.
  - intros l0 Hl0. rewrite Hs by exact Hl0. subst w1. cbn.
    rewrite lookup_insert_ne; congruence.
  - intros k. rewrite Hd. f_equal. subst w1. unfold deref. cbn.
    rewrite lookup_insert_eq. reflexivity.
Qed.

(** C6: reading the configuration of a view makes a new dict object that
    holds the base configuration with exactly the non-null overrides laid
    over it; every dict that existed before, the driver's configuration
    among them, is as it was, and so is the driver. *)
Theorem reconfigured_config_merges (w : world) :
  is_Some (store w !! config (driver w)) ->
  let base := deref (config (driver w)) w in
  let overwrite := _config_overwrite (reconfigured w) in
  let out := ReconfiguredDriver_config w in
  let w' := fst out in
  exists l,
    snd out = Ok l /\
    store w !! l = None /\
    (forall k,
       deref l w' !! k =
       match overwrite !! k with
       | Some v => if is_None v then base !! k else Some v
       | None => base !! k
       end) /\
    (forall l0 d, store w !! l0 = Some d -> store w' !! l0 = Some d) /\
    driver w' = driver w /\
    deref (config (driver w')) w' = base.
Proof.
  intros Hlive. cbv zeta.
  destruct (ReconfiguredDriver_config_store w) as (Hfresh & Hs & Hd).
  pose proof (ReconfiguredDriver_config_same_objects w) as Hso.
  assert (Hold : forall l0 d,
             store w !! l0 = Some d ->
             store (fst (ReconfiguredDriver_config w)) !! l0 = Some d).
  { intros l0 d H. rewrite Hs; [exact H | ]. intros ->. congruence. }
  exists (fresh (dom (store w))). repeat apply conj.
  - reflexivity.
  - exact Hfresh.
  - exact Hd.
  - exact Hold.
  - apply Hso.
  - rewrite (so_driver _ _ Hso). destruct Hlive as [d Hd0].
    unfold deref. rewrite (Hold _ _ Hd0), Hd0. reflexivity.
Qed.

(** The round trip of the specification: [{pulse_ms: 50}] laid over a
    driver configured with [pulse_ms: 10] reads 50, and the driver still
    reads 10 afterwards. *)
Lemma reconfigured_config_merges_witness :
  let out := ReconfiguredDriver_config Example.machine0 in
  exists l,
    snd out = Ok l /\
    deref l (fst out) !! "pulse_ms" = Some (VInt 50) /\
    deref l (fst out) !! "number" = Some (VStr "A1-B0-3") /\
    deref (config (driver (fst out))) (fst out) !! "pulse_ms" =
      Some (VInt 10).
Proof.
  cbv zeta.
  destruct (reconfigured_config_merges Example.machine0) as (l & H1 & _ & H2 & _ & _ & H3).
  - exists Example.coil_config. reflexivity.
  - exists l. repeat apply conj.
    + exact H1.
    + rewrite H2. reflexivity.
    + rewrite H2. reflexivity.
    + rewrite H3. reflexivity.
Defined.

(** C7, as the code has it: reading the configuration of a view never
    fails, whatever the keys of the override mapping; a key with a non-null
    value, recognized or not, reads that value in the merged
    configuration. *)
Theorem reconfigured_config_never_fails (w : world) :
  let out := ReconfiguredDriver_config w in
  exists l,
    snd out = Ok l /\
    forall k v,
      _config_overwrite (reconfigured w) !! k = Some v ->
      is_None v = false ->
      deref l (fst out) !! k = Some v.
Proof.
  cbv zeta. exists (fresh (dom (store w))). split; [reflexivity | ].
  intros k v Hk Hv.
  destruct (ReconfiguredDriver_config_store w) as (_ & _ & Hd).
  rewrite Hd. unfold overlaid. rewrite Hk, Hv. reflexivity.
Qed.

(** C7 fails as stated: [pulse_mss] is no field of the driver's
    configuration, and a view that overrides it reads its merged
    configuration without any error, the misspelt key added to it. *)
Lemma unrecognized_key_is_accepted :
  let out := ReconfiguredDriver_config Example.machine_typo in
  ~ recognized Example.machine_typo "pulse_mss" /\
  _config_overwrite (reconfigured Example.machine_typo) !! "pulse_mss" =
    Some (VInt 50) /\
  exists l,
    snd out = Ok l /\
    deref l (fst out) !! "pulse_mss" = Some (VInt 50) /\
    deref l (fst out) !! "pulse_ms" = Some (VInt 10).
Proof.
  cbv zeta. repeat apply conj.
  - intros [v H]. vm_compute in H. discriminate H.
  - reflexivity.
  - exists 2%positive. vm_compute. repeat apply conj; reflexivity.
Qed.

(** ** A view next to its driver *)

Lemma facing_remove (nm : string) (ds : list delay) :
  facing_delay <$> Delay.remove nm ds = Delay.remove nm (facing_delay <$> ds).
Proof.
  unfold Delay.remove.
  induction ds as [ | d ds IH]; [reflexivity | ].
  cbn. unfold Delay.named at 1 3. cbn.
  destruct (String.eqb (delay_name d) nm); cbn; [exact IH | ].
  f_equal. exact IH.
Qed.

Lemma facing_reset (nm : string) (ms : value) (self : receiver) (ds : list delay) :
  facing_delay <$> Delay.reset nm ms (bound_disable self) ds =
  Delay.reset nm ms (bound_disable the_driver) (facing_delay <$> ds).
Proof. unfold Delay.reset. rewrite fmap_app, facing_remove. reflexivity. Qed.

Lemma forwards_fresh (w : world) :
  own_time_last_changed (reconfigured w) = None ->
  own_time_when_done (reconfigured w) = None ->
  forwards w w.
Proof.
  intros H1 H2. split; try reflexivity; cbn; [rewrite H1 | rewrite H2];
    reflexivity.
Qed.

Section Forwarding.

Variables wv wb : world.
Hypothesis related : forwards wv wb.
Hypothesis alike : answers_alike (platform wb).

Lemma forwards_enable :
  forwards (fst (enable the_reconfigured wv)) (fst (enable the_driver wb)).
Proof.
  destruct related. split; cbn; rewrite ?fmap_app; cbn; congruence.
Qed.

Lemma forwards_disable :
  forwards (fst (disable the_reconfigured wv)) (fst (disable the_driver wb)).
Proof.
  destruct related.
  split; cbn; rewrite ?fmap_app, ?facing_remove; cbn; congruence.
Qed.

Lemma forwards_check_platform (sw : Switch) :
  fst (_check_platform the_reconfigured sw wv) = wv /\
  fst (_check_platform the_driver sw wb) = wb /\
  snd (_check_platform the_reconfigured sw wv) =
  snd (_check_platform the_driver sw wb).
Proof.
  unfold _check_platform, bind, gets. cbn.
  rewrite (fw_platform _ _ related).
  destruct (negb _); repeat apply conj; reflexivity.
Qed.

Lemma forwards_platform_do (c : receiver -> platform_call) :
  facing_call (c the_reconfigured) = facing_call (c the_driver) ->
  forwards (fst (platform_do (c the_reconfigured) wv))
    (fst (platform_do (c the_driver) wb)).
Proof.
  intros Hc. destruct related.
  split; cbn in *; rewrite ?fmap_app; cbn; congruence.
Qed.

Lemma forwards_install (c : receiver -> platform_call) (sw : Switch) :
  facing_call (c the_reconfigured) = facing_call (c the_driver) ->
  let outv :=
    (_check_platform the_reconfigured sw ;;; platform_do (c the_reconfigured))
      wv in
  let outb :=
    (_check_platform the_driver sw ;;; platform_do (c the_driver)) wb in
  snd outv = snd outb /\ forwards (fst outv) (fst outb).
Proof.
  intros Hc. cbv zeta. unfold bind.
  destruct (forwards_check_platform sw) as (Hv & Hb & Hr).
  destruct (_check_platform the_reconfigured sw wv) as [wv' rv].
  destruct (_check_platform the_driver sw wb) as [wb' rb].
  cbn in Hv, Hb, Hr. subst wv' wb' rv.
  destruct rb as [[] | e]; cbn.
  - split; [reflexivity | apply forwards_platform_do, Hc].
  - split; [reflexivity | exact related].
Qed.

Lemma forwards_pulse_dispatch (d p : value) :
  let outv := pulse_dispatch the_reconfigured d p wv in
  let outb := pulse_dispatch the_driver d p wb in
  snd outv = snd outb /\ forwards (fst outv) (fst outb).
Proof.
  cbv zeta. pose proof related as [Hm Hp Hn Hd Hh Hc Hg Ht Hw].
  destruct (hardware_timed (max_pulse (platform wb)) d) eqn:Hhw.
  - rewrite (pulse_dispatch_hardware the_driver) by exact Hhw.
    rewrite (pulse_dispatch_hardware the_reconfigured)
      by (rewrite Hp; exact Hhw).
    cbv zeta. rewrite Hp, Ht, alike.
    destruct (ne _ _);
      [destruct (done_time (attr_time_last_changed the_driver wb) _) | ];
      (split; [reflexivity | ]);
      split; cbn in *; rewrite ?fmap_app; cbn; congruence.
  - rewrite (pulse_dispatch_software the_driver) by exact Hhw.
    rewrite (pulse_dispatch_software the_reconfigured)
      by (rewrite Hp; exact Hhw).
    cbv zeta. rewrite Hm.
    destruct (done_time _ _);
      (split; [reflexivity | ]);
      split; unfold own_timer; cbn in *; rewrite ?fmap_app, ?facing_reset;
      cbn; congruence.
Qed.

Lemma forwards_pulse (ms power : value) :
  truthy ms = true ->
  let outv := pulse the_reconfigured ms power wv in
  let outb := pulse the_driver ms power wb in
  snd outv = snd outb /\ forwards (fst outv) (fst outb).
Proof.
  intros Hms. cbv zeta.
  rewrite (pulse_unfold the_reconfigured ms power wv wv ms)
    by (apply resolve_milliseconds_given, Hms).
  rewrite (pulse_unfold the_driver ms power wb wb ms)
    by (apply resolve_milliseconds_given, Hms).
  destruct (scale_by_power ms power) as [scaled | e].
  - apply forwards_pulse_dispatch.
  - split; [reflexivity | exact related].
Qed.

End Forwarding.

Lemma pulse_cases (self : receiver) (ms power : value) (w : world) :
  pulse self ms power w =
  match resolve_milliseconds self ms w with
  | (w1, Ok d) =>
      match scale_by_power d power with
      | Ok scaled => pulse_dispatch self (fst scaled) (snd scaled) w1
      | Raise e => (w1, Raise e)
      end
  | (w1, Raise e) => (w1, Raise e)
  end.
Proof.
  unfold pulse, bind at 1.
  destruct (resolve_milliseconds self ms w) as [w1 [d | e]]; [ | reflexivity].
  unfold bind, lift. destruct (scale_by_power d power); reflexivity.
Qed.

Lemma pulse_dispatch_view_driver (d p : value) (w : world) :
  driver (fst (pulse_dispatch the_reconfigured d p w)) = driver w.
Proof.
  destruct (hardware_timed (max_pulse (platform w)) d) eqn:Hhw.
  - rewrite pulse_dispatch_hardware by exact Hhw. cbv zeta.
    destruct (ne _ _); [destruct (done_time _ _) | ]; reflexivity.
  - rewrite pulse_dispatch_software by exact Hhw. cbv zeta.
    destruct (done_time _ _); reflexivity.
Qed.

Lemma pulse_view_driver (ms power : value) (w : world) :
  driver (fst (pulse the_reconfigured ms power w)) = driver w.
Proof.
  rewrite pulse_cases.
  pose proof (resolve_milliseconds_same_objects the_reconfigured ms w) as Hso.
  destruct (resolve_milliseconds the_reconfigured ms w) as [w1 [d | e]];
    cbn in Hso; [ | apply Hso].
  destruct (scale_by_power d power); [ | apply Hso].
  rewrite pulse_dispatch_view_driver. apply Hso.
Qed.

Lemma install_view_driver (c : platform_call) (sw : Switch) (w : world) :
  driver (fst ((_check_platform the_reconfigured sw ;;; platform_do c) w)) =
  driver w.
Proof.
  unfold bind, _check_platform, gets. cbn.
  destruct (negb _); reflexivity.
Qed.

(** No call on a view assigns an attribute of the wrapped driver. *)
Lemma invoke_view_driver (op : operation) (w : world) :
  driver (fst (invoke the_reconfigured op w)) = driver w.
Proof.
  destruct op; cbn [invoke];
    try reflexivity;
    try apply pulse_view_driver;
    apply install_view_driver.
Qed.

Lemma ReconfiguredDriver_config_reads (k : string) (v : value) (w : world) :
  _config_overwrite (reconfigured w) !! k = Some v ->
  is_None v = false ->
  exists w1 l,
    ReconfiguredDriver_config w = (w1, Ok l) /\
    same_objects w1 w /\
    getitem l k w1 = (w1, Ok v).
Proof.
  intros Hk Hv.
  destruct (ReconfiguredDriver_config_store w) as (_ & _ & Hd).
  pose proof (ReconfiguredDriver_config_same_objects w) as Hso.
  pose proof (ReconfiguredDriver_config_result w) as Hr.
  destruct (ReconfiguredDriver_config w) as [w1 r]. cbn in *. subst r.
  exists w1, (fresh (dom (store w))). repeat apply conj.
  - reflexivity.
  - exact Hso.
  - unfold getitem. rewrite Hd. unfold overlaid. rewrite Hk, Hv. reflexivity.
Qed.

Lemma truthy_not_None (v : value) : truthy v = true -> is_None v = false.
Proof. destruct v; [discriminate | reflexivity ..]. Qed.

Lemma view_resolves_from_overrides (ms v : value) (w : world) :
  truthy ms = false ->
  _config_overwrite (reconfigured w) !! "pulse_ms" = Some v ->
  truthy v = true ->
  snd (resolve_milliseconds the_reconfigured ms w) = Ok v.
Proof.
  intros Hms Hk Hv. unfold resolve_milliseconds. rewrite Hms. cbn [negb].
  cbn [self_config]. unfold bind at 1.
  destruct (ReconfiguredDriver_config_reads "pulse_ms" v w Hk
              (truthy_not_None v Hv)) as (w1 & l & -> & Hso & Hget).
  unfold bind at 1. rewrite Hget, Hv. unfold bind.
  assert (Hk1 : _config_overwrite (reconfigured w1) !! "pulse_ms" = Some v).
  { rewrite (so_reconfigured _ _ Hso). exact Hk. }
  destruct (ReconfiguredDriver_config_reads "pulse_ms" v w1 Hk1
              (truthy_not_None v Hv)) as (w2 & l2 & -> & _ & Hget2).
  rewrite Hget2. reflexivity.
Qed.

(** C9, as the code has it: a method called on a view is the driver's
    method run with the view as [self].  Seen through the view, an operation
    that takes nothing from the configuration does what it does on the
    driver itself: same outcome, same commands to the driver's hardware
    handle, same platform calls, same delays under the driver's timer name,
    same times read back (the hardware answering a pulse for the view as for
    the driver).  A pulse without a duration of its own takes [pulse_ms]
    from the merged configuration of the view. *)
Theorem view_runs_driver_methods (op : operation) (wv wb : world) :
  (forwards wv wb -> answers_alike (platform wb) ->
   configuration_free op = true ->
   snd (invoke the_reconfigured op wv) = snd (invoke the_driver op wb) /\
   forwards (fst (invoke the_reconfigured op wv))
     (fst (invoke the_driver op wb))) /\
  (forall ms v,
     truthy ms = false ->
     _config_overwrite (reconfigured wv) !! "pulse_ms" = Some v ->
     truthy v = true ->
     snd (resolve_milliseconds the_reconfigured ms wv) = Ok v).
Proof.
  split.
  - intros Hrel Halike Hfree. destruct op; cbn [invoke]; cbn in Hfree.
    + split; [reflexivity | apply forwards_enable, Hrel].
    + split; [reflexivity | apply forwards_disable, Hrel].
    + apply forwards_pulse; assumption.
    + apply forwards_pulse; assumption.
    + apply (forwards_install wv wb Hrel
               (pulse_on_hit_and_release_rule sw)). reflexivity.
    + apply (forwards_install wv wb Hrel
               (pulse_on_hit_and_enable_and_release_rule sw)). reflexivity.
    + apply (forwards_install wv wb Hrel (pulse_on_hit_rule sw)). reflexivity.
    + split; [reflexivity | ].
      apply (forwards_platform_do wv wb Hrel (clear_rule sw)). reflexivity.
  - intros ms v. apply view_resolves_from_overrides.
Qed.

Lemma view_runs_driver_methods_witness :
  let wv := fst (invoke the_reconfigured op_enable Example.machine0) in
  let wb := fst (invoke the_driver op_enable Example.machine0) in
  forwards wv wb /\
  attr_time_when_done the_reconfigured wv = VInt (-1) /\
  snd (resolve_milliseconds the_reconfigured VNone Example.machine0) =
    Ok (VInt 50).
Proof.
  cbv zeta.
  destruct (view_runs_driver_methods op_enable Example.machine0
              Example.machine0) as (Hfw & Hms).
  destruct Hfw as [_ Hfw].
  - apply forwards_fresh; reflexivity.
  - intros ms. reflexivity.
  - reflexivity.
  - repeat apply conj.
    + exact Hfw.
    + reflexivity.
    + apply Hms; reflexivity.
Defined.

(** C9 fails as stated.  A pulse without a duration is not the same pulse
    on the view as on its driver: the hardware is asked for 50 ms, against
    10 ms.  And where [enable()] on the driver sets the driver's
    [time_when_done] and [time_last_changed], [enable()] on the view sends
    the hardware command and leaves both attributes of the driver at their
    old values. *)
Lemma view_is_not_its_driver :
  (hw_log (fst (pulse the_driver VNone VNone Example.machine0)) =
     [hw_pulse the_driver (VInt 10)] /\
   hw_log (fst (pulse the_reconfigured VNone VNone Example.machine0)) =
     [hw_pulse the_reconfigured (VInt 50)]) /\
  let wb := fst (enable the_driver Example.machine0) in
  let wv := fst (enable the_reconfigured Example.machine0) in
  (time_when_done (driver wb) = VInt (-1) /\
   time_last_changed (driver wb) = VFloat 12.5) /\
  (hw_log wv = [hw_enable the_reconfigured] /\
   time_when_done (driver wv) = VInt 0 /\
   time_last_changed (driver wv) = VInt 0).
Proof. vm_compute. repeat apply conj; reflexivity. Qed.

(** ** The timers of an actuator over time *)

Lemma timers_step_same (w w' : world) :
  name (driver w') = name (driver w) ->
  delays w' = delays w ->
  timers_step w w'.
Proof.
  intros Hn Hd. unfold timers_step, pending_timers, own_timer.
  rewrite Hn, Hd. split; [reflexivity | left; reflexivity].
Qed.

Lemma timers_step_remove (w w' : world) :
  name (driver w') = name (driver w) ->
  delays w' = Delay.remove (own_timer w) (delays w) ->
  timers_step w w'.
Proof.
  intros Hn Hd. unfold timers_step, pending_timers.
  assert (Ho : own_timer w' = own_timer w) by (unfold own_timer; congruence).
  rewrite Ho, Hd, pending_remove. split; [reflexivity | right; cbn; lia].
Qed.

Lemma timers_step_reset (w w' : world) (ms : value) (cb : callback) :
  name (driver w') = name (driver w) ->
  delays w' = Delay.reset (own_timer w) ms cb (delays w) ->
  timers_step w w'.
Proof.
  intros Hn Hd. unfold timers_step, pending_timers.
  assert (Ho : own_timer w' = own_timer w) by (unfold own_timer; congruence).
  rewrite Ho, Hd, pending_reset. split; [reflexivity | right; cbn; lia].
Qed.

Lemma timers_step_trans (w1 w2 w3 : world) :
  timers_step w1 w2 -> timers_step w2 w3 -> timers_step w1 w3.
Proof.
  intros [Ho1 H1] [Ho2 H2]. split; [congruence | ].
  destruct H2 as [H2 | H2]; [ | right; exact H2].
  destruct H1 as [H1 | H1]; [left | right]; lia.
Qed.

Lemma pulse_dispatch_delays (self : receiver) (d p : value) (w : world) :
  let w' := fst (pulse_dispatch self d p w) in
  name (driver w') = name (driver w) /\
  delays w' =
    if hardware_timed (max_pulse (platform w)) d then delays w
    else Delay.reset (own_timer w) d (bound_disable self) (delays w).
Proof.
  cbv zeta. destruct (hardware_timed (max_pulse (platform w)) d) eqn:Hhw.
  - rewrite pulse_dispatch_hardware by exact Hhw. cbv zeta.
    destruct (ne _ _); [destruct (done_time _ _) | ];
      destruct self; split; reflexivity.
  - rewrite pulse_dispatch_software by exact Hhw. cbv zeta.
    destruct (done_time _ _); destruct self; split; reflexivity.
Qed.

Lemma pulse_timers_step (self : receiver) (ms power : value) (w : world) :
  timers_step w (fst (pulse self ms power w)).
Proof.
  rewrite pulse_cases.
  pose proof (resolve_milliseconds_same_objects self ms w) as Hso.
  destruct (resolve_milliseconds self ms w) as [w1 r]. cbn in Hso.
  assert (H1 : timers_step w w1).
  { apply timers_step_same; [rewrite (so_driver _ _ Hso) | apply Hso];
      reflexivity. }
  destruct r as [d | e]; [ | exact H1].
  destruct (scale_by_power d power) as [scaled | e]; [ | exact H1].
  apply (timers_step_trans _ _ _ H1).
  destruct (pulse_dispatch_delays self (fst scaled) (snd scaled) w1)
    as [Hn Hd].
  destruct (hardware_timed _ _).
  - apply timers_step_same; assumption.
  - eapply timers_step_reset; eassumption.
Qed.

Lemma install_timers_step (self : receiver) (c : platform_call) (sw : Switch)
    (w : world) :
  timers_step w (fst ((_check_platform self sw ;;; platform_do c) w)).
Proof.
  unfold bind, _check_platform, gets. cbn.
  destruct (negb _); apply timers_step_same; reflexivity.
Qed.

Lemma invoke_timers_step (self : receiver) (op : operation) (w : world) :
  timers_step w (fst (invoke self op w)).
Proof.
  destruct op; cbn [invoke].
  - apply timers_step_same; destruct self; reflexivity.
  - apply timers_step_remove; destruct self; reflexivity.
  - apply pulse_timers_step.
  - apply pulse_timers_step.
  - apply install_timers_step.
  - apply install_timers_step.
  - apply install_timers_step.
  - apply timers_step_same; reflexivity.
Qed.

Lemma pending_without (nm : string) (i : nat) (ds : list delay) :
  (length (Delay.pending nm (take i ds ++ drop (S i) ds)) <=
   length (Delay.pending nm ds))%nat.
Proof.
  destruct (ds !! i) as [d | ] eqn:Hi.
  - rewrite <- (take_drop_middle ds i d Hi) at 3.
    rewrite !pending_app, !length_app.
    change (d :: drop (S i) ds) with ([d] ++ drop (S i) ds).
    rewrite pending_app, length_app. lia.
  - apply lookup_ge_None in Hi.
    rewrite take_ge, drop_ge, app_nil_r by lia. lia.
Qed.

Lemma fire_timers_step (i : nat) (w : world) :
  timers_step w (fst (fire i w)).
Proof.
  unfold fire. destruct (delays w !! i) as [d | ] eqn:Hi.
  - set (w1 := with_delays (take i (delays w) ++ drop (S i) (delays w)) w).
    assert (H1 : timers_step w w1).
    { split; [reflexivity | left]. apply pending_without. }
    destruct (delay_callback d) as [self | t]; [ | exact H1].
    apply (timers_step_trans _ _ _ H1).
    apply timers_step_remove; destruct self; reflexivity.
  - apply timers_step_same; reflexivity.
Qed.

Lemma happen_timers_step (e : event) (w : world) :
  timers_step w (happen e w).
Proof.
  destruct e as [self op | now | i]; cbn [happen].
  - apply invoke_timers_step.
  - apply timers_step_same; reflexivity.
  - apply fire_timers_step.
Qed.

Lemma run_at_most_one (es : list event) (w : world) :
  (length (pending_timers w) <= 1)%nat ->
  (length (pending_timers (run es w)) <= 1)%nat.
Proof.
  revert w. induction es as [ | e es IH]; intros w Hw; [exact Hw | ].
  cbn. apply IH.
  destruct (happen_timers_step e w) as [_ [H | H]]; lia.
Qed.

Lemma pulse_given_timers (self : receiver) (ms : value) (w : world) :
  truthy ms = true ->
  pending_timers (fst (pulse self ms VNone w)) =
  if hardware_timed (max_pulse (platform w)) ms then pending_timers w
  else [{| delay_name := own_timer w; delay_ms := ms;
           delay_callback := bound_disable self |}].
Proof.
  intros Hms.
  rewrite (pulse_unfold self ms VNone w w ms)
    by (apply resolve_milliseconds_given, Hms).
  rewrite scale_by_power_none. cbn [fst snd].
  destruct (pulse_dispatch_delays self ms (VFloat 1) w) as [Hn Hd].
  unfold pending_timers, own_timer. rewrite Hn, Hd.
  destruct (hardware_timed _ _); [reflexivity | apply pending_reset].
Qed.

(** C3, as the code has it: through every sequence of calls on the
    actuator or on a view of it, of clock ticks and of delays coming due, an
    actuator that has at most one pending self-disable timer keeps at most
    one, at every moment.  A software-timed pulse replaces whatever was
    pending by its own timer and [disable] removes it; [enable] and a
    hardware-timed pulse leave a pending timer where it is. *)
Theorem at_most_one_pending_timer :
  (forall (es : list event) (w : world),
     (length (pending_timers w) <= 1)%nat ->
     forall n, (length (pending_timers (run (take n es) w)) <= 1)%nat) /\
  (forall self ms w,
     truthy ms = true ->
     hardware_timed (max_pulse (platform w)) ms = false ->
     pending_timers (happen (call self (op_pulse ms VNone)) w) =
     [{| delay_name := own_timer w; delay_ms := ms;
         delay_callback := bound_disable self |}]) /\
  (forall self w, pending_timers (happen (call self op_disable) w) = []) /\
  (forall self w,
     pending_timers (happen (call self op_enable) w) = pending_timers w) /\
  (forall self ms w,
     truthy ms = true ->
     hardware_timed (max_pulse (platform w)) ms = true ->
     pending_timers (happen (call self (op_pulse ms VNone)) w) =
     pending_timers w).
Proof.
  repeat apply conj.
  - intros es w Hw n. apply run_at_most_one, Hw.
  - intros self ms w Hms Hsw. cbn [happen invoke].
    rewrite pulse_given_timers by exact Hms. rewrite Hsw. reflexivity.
  - intros self w. cbn [happen invoke]. unfold pending_timers.
    rewrite disable_own_timer, disable_delays. apply pending_remove.
  - intros self w. cbn [happen invoke]. unfold pending_timers.
    rewrite enable_delays. destruct self; reflexivity.
  - intros self ms w Hms Hhw. cbn [happen invoke].
    rewrite pulse_given_timers by exact Hms. rewrite Hhw. reflexivity.
Qed.

Lemma at_most_one_pending_timer_witness :
  let es := [call the_driver (op_pulse (VInt 400) VNone);
             tick 13;
             call the_reconfigured (op_pulse (VInt 300) VNone);
             call the_driver (op_pulse (VInt 20) VNone);
             due 0%nat] in
  (length (pending_timers (run (take 3 es) Example.machine0)) <= 1)%nat /\
  pending_timers (run (take 3 es) Example.machine0) =
    [{| delay_name := "c_flipper_timed_enable"; delay_ms := VInt 300;
        delay_callback := bound_disable the_reconfigured |}] /\
  pending_timers (run es Example.machine0) = [].
Proof.
  cbv zeta. destruct at_most_one_pending_timer as (Hinv & _).
  repeat apply conj.
  - apply Hinv. vm_compute. lia.
  - reflexivity.
  - reflexivity.
Defined.

(** C3 fails as stated: [enable()] after [pulse(400)] cancels nothing.  The
    timer of the pulse is still pending, and when it comes due it disables
    the actuator that the later call had enabled for good: the earlier call
    wins. *)
Lemma later_enable_does_not_win :
  let w2 := run [call the_driver (op_pulse (VInt 400) VNone);
                 call the_driver op_enable] Example.machine0 in
  pending_timers w2 =
    [{| delay_name := "c_flipper_timed_enable"; delay_ms := VInt 400;
        delay_callback := bound_disable the_driver |}] /\
  time_when_done (driver w2) = VInt (-1) /\
  hw_log (run [due 0%nat] w2) =
    [hw_enable the_driver; hw_enable the_driver; hw_disable the_driver].
Proof. vm_compute. repeat apply conj; reflexivity. Qed.

(** Nor does a hardware-timed pulse cancel the timer of a software-timed
    one before it. *)
Example later_short_pulse_does_not_win :
  let w2 := run [call the_driver (op_pulse (VInt 400) VNone);
                 call the_driver (op_pulse (VInt 20) VNone)]
              Example.machine0 in
  pending_timers w2 =
    [{| delay_name := "c_flipper_timed_enable"; delay_ms := VInt 400;
        delay_callback := bound_disable the_driver |}] /\
  hw_log w2 = [hw_enable the_driver; hw_pulse the_driver (VInt 20)].
Proof. vm_compute. repeat apply conj; reflexivity. Qed.

(** * More of the code *)

(** ** Strings *)

Section StrFacts.

Import Str.

Lemma append_cons (c : Ascii.ascii) (x y : string) :
  String c x +:+ y = String c (x +:+ y).
Proof. reflexivity. Qed.

Lemma append_nil (y : string) : "" +:+ y = y.
Proof. reflexivity. Qed.

Lemma prefix_app (p x y : string) :
  String.prefix p x = true -> String.prefix p (x +:+ y) = true.
Proof.
  revert x. induction p as [ | a p IH]; intros x H.
  - destruct (x +:+ y); reflexivity.
  - destruct x as [ | b x]; [discriminate | ].
    rewrite append_cons. cbn in *.
    destruct (Ascii.ascii_dec a b); [apply IH, H | discriminate].
Qed.

Lemma prefix_cut (p s : string) :
  String.prefix p s = true -> s = p +:+ drop (String.length p) s.
Proof.
  revert s. induction p as [ | a p IH]; intros s H; [reflexivity | ].
  destruct s as [ | b s]; cbn in *; [discriminate | ].
  destruct (Ascii.ascii_dec a b) as [-> | ]; [ | discriminate].
  rewrite append_cons. f_equal. apply IH, H.
Qed.

Lemma prefix_of_app (p r : string) : String.prefix p (p +:+ r) = true.
Proof.
  induction p as [ | a p IH]; [destruct r; reflexivity | ].
  rewrite append_cons. cbn.
  destruct (Ascii.ascii_dec a a); [exact IH | congruence].
Qed.

Lemma drop_app (p r : string) : drop (String.length p) (p +:+ r) = r.
Proof.
  induction p as [ | a p IH]; [reflexivity | ].
  rewrite append_cons. cbn. exact IH.
Qed.

Lemma partition_nil (sep : string) :
  partition sep "" =
  if String.prefix sep "" then Some ("", drop (String.length sep) "")
  else None.
Proof. reflexivity. Qed.

Lemma partition_cons (sep : string) (c : Ascii.ascii) (s : string) :
  partition sep (String c s) =
  if String.prefix sep (String c s)
  then Some ("", drop (String.length sep) (String c s))
  else match partition sep s with
       | Some (a, rest) => Some (String c a, rest)
       | None => None
       end.
Proof. reflexivity. Qed.

Lemma contains_nil (sep : string) :
  contains sep "" = String.prefix sep "" || false.
Proof. reflexivity. Qed.

Lemma contains_cons (sep : string) (c : Ascii.ascii) (s : string) :
  contains sep (String c s) = String.prefix sep (String c s) || contains sep s.
Proof. reflexivity. Qed.

Lemma partition_app (sep s a r : string) :
  partition sep s = Some (a, r) -> s = a +:+ sep +:+ r.
Proof.
  revert a r. induction s as [ | c s IH]; intros a r;
    rewrite ?partition_nil, ?partition_cons.
  - destruct (String.prefix sep "") eqn:Hp; [ | discriminate].
    intros [= <- <-]. apply prefix_cut, Hp.
  - destruct (String.prefix sep (String c s)) eqn:Hp.
    + intros [= <- <-]. apply (prefix_cut _ _ Hp).
    + destruct (partition sep s) as [[a' r'] | ]; [ | discriminate].
      intros [= <- <-]. rewrite append_cons. f_equal. apply IH. reflexivity.
Qed.

Lemma partition_contains (sep s : string) :
  contains sep s = match partition sep s with Some _ => true | None => false end.
Proof.
  induction s as [ | c s IH];
    rewrite ?partition_nil, ?partition_cons, ?contains_nil, ?contains_cons.
  - destruct (String.prefix sep ""); reflexivity.
  - destruct (String.prefix sep (String c s)); [reflexivity | ].
    cbn [orb]. rewrite IH. destruct (partition sep s) as [[] | ]; reflexivity.
Qed.

(** The text before the first occurrence holds no occurrence. *)
Lemma partition_first (sep s a r : string) :
  sep <> "" ->
  partition sep s = Some (a, r) -> contains sep a = false.
Proof.
  intros Hsep. revert a r. induction s as [ | c s IH]; intros a r;
    rewrite ?partition_nil, ?partition_cons.
  - destruct (String.prefix sep "") eqn:Hp; [ | discriminate].
    intros [= <- <-]. destruct sep; [congruence | reflexivity].
  - destruct (String.prefix sep (String c s)) eqn:Hp.
    + intros [= <- <-]. destruct sep; [congruence | reflexivity].
    + destruct (partition sep s) as [[a' r'] | ] eqn:Hs; [ | discriminate].
      intros [= <- <-]. rewrite contains_cons.
      rewrite (IH a' r' eq_refl), orb_false_r.
      destruct (String.prefix sep (String c a')) eqn:Hpa; [ | reflexivity].
      apply (prefix_app _ _ (sep +:+ r')) in Hpa.
      rewrite append_cons, <- (partition_app _ _ _ _ Hs) in Hpa. congruence.
Qed.

Lemma length_app_str (x y : string) :
  String.length (x +:+ y) = (String.length x + String.length y)%nat.
Proof.
  induction x as [ | c x IH]; [reflexivity | ].
  rewrite append_cons. cbn. rewrite IH. reflexivity.
Qed.

Lemma partition_shorter (sep s a r : string) :
  sep <> "" ->
  partition sep s = Some (a, r) -> (String.length r < String.length s)%nat.
Proof.
  intros Hsep H. rewrite (partition_app _ _ _ _ H), !length_app_str.
  destruct sep; [congruence | cbn; lia].
Qed.

Lemma split_fuel_enough (sep : string) (n m : nat) (s : string) :
  sep <> "" ->
  (String.length s <= n)%nat -> (String.length s <= m)%nat ->
  split_fuel n sep s = split_fuel m sep s.
Proof.
  intros Hsep. revert m s. induction n as [ | n IH]; intros m s Hn Hm.
  - destruct s; [ | cbn in Hn; lia].
    destruct m; cbn; [reflexivity | ].
    destruct sep; [congruence | reflexivity].
  - destruct m as [ | m].
    + destruct s; [ | cbn in Hm; lia]. cbn.
      destruct sep; [congruence | reflexivity].
    + cbn. destruct (partition sep s) as [[a r] | ] eqn:Hp; [ | reflexivity].
      f_equal. pose proof (partition_shorter _ _ _ _ Hsep Hp).
      apply IH; lia.
Qed.

(** The equation of [split]: the fuel never runs out. *)
Lemma split_unfold (sep s : string) :
  sep <> "" ->
  split sep s =
  match partition sep s with
  | None => [s]
  | Some (a, rest) => a :: split sep rest
  end.
Proof.
  intros Hsep. unfold split.
  destruct (String.length s) as [ | n] eqn:Hl.
  - destruct s; [ | discriminate]. cbn.
    destruct sep; [congruence | reflexivity].
  - cbn. destruct (partition sep s) as [[a r] | ] eqn:Hp; [ | reflexivity].
    f_equal. pose proof (partition_shorter _ _ _ _ Hsep Hp).
    apply split_fuel_enough; [exact Hsep | lia | lia].
Qed.

Lemma split_has_two (sep s : string) :
  sep <> "" -> contains sep s = true ->
  (2 <= length (split sep s))%nat.
Proof.
  intros Hsep H. rewrite partition_contains in H.
  rewrite split_unfold by exact Hsep.
  destruct (partition sep s) as [[a r] | ]; [ | discriminate].
  rewrite (split_unfold sep r) by exact Hsep.
  destruct (partition sep r) as [[] | ]; cbn; lia.
Qed.

End StrFacts.

Section TextFacts.

Import Str.


Lemma lower_char_not_upper (c : Ascii.ascii) : is_upper (lower_char c) = false.
Proof. destruct c as [[] [] [] [] [] [] [] []]; reflexivity. Qed.

Lemma lower_char_space (c : Ascii.ascii) :
  Ascii.eqb (lower_char c) Ascii.Space = Ascii.eqb c Ascii.Space.
Proof. destruct c as [[] [] [] [] [] [] [] []]; reflexivity. Qed.

Lemma upper_char_idem (c : Ascii.ascii) :
  upper_char (upper_char c) = upper_char c.
Proof. destruct c as [[] [] [] [] [] [] [] []]; reflexivity. Qed.




Lemma upper_idem (s : string) : upper (upper s) = upper s.
Proof.
  induction s as [ | c s IH]; cbn; [reflexivity | ].
  rewrite upper_char_idem, IH. reflexivity.
Qed.





Lemma lower_app (x y : string) : lower (x +:+ y) = lower x +:+ lower y.
Proof.
  induction x as [ | c x IH]; [reflexivity | ].
  rewrite append_cons. cbn. rewrite IH. reflexivity.
Qed.

Lemma without_spaces_app (x y : string) :
  without_spaces (x +:+ y) = without_spaces x +:+ without_spaces y.
Proof.
  induction x as [ | c x IH]; [reflexivity | ].
  rewrite append_cons. cbn.
  destruct (Ascii.eqb c Ascii.Space); [exact IH | ].
  rewrite append_cons, IH. reflexivity.
Qed.

Lemma without_spaces_no_space (s : string) :
  all_chars (fun c => negb (is_space c)) (without_spaces s) = true.
Proof.
  induction s as [ | c s IH]; cbn; [reflexivity | ].
  destruct (Ascii.eqb c Ascii.Space) eqn:Hc; [exact IH | ].
  cbn. unfold is_space at 1. rewrite Hc, IH. reflexivity.
Qed.

Lemma lower_no_upper (s : string) :
  all_chars (fun c => negb (is_upper c)) (lower s) = true.
Proof.
  induction s as [ | c s IH]; cbn; [reflexivity | ].
  rewrite lower_char_not_upper, IH. reflexivity.
Qed.

Lemma lower_keeps_no_space (s : string) :
  all_chars (fun c => negb (is_space c)) s = true ->
  all_chars (fun c => negb (is_space c)) (lower s) = true.
Proof.
  induction s as [ | c s IH]; cbn; [reflexivity | ].
  intros H. apply andb_true_iff in H as [Hc Hs].
  unfold is_space in *. rewrite lower_char_space, Hc, (IH Hs). reflexivity.
Qed.

Lemma all_chars_app (P : Ascii.ascii -> bool) (x y : string) :
  all_chars P (x +:+ y) = all_chars P x && all_chars P y.
Proof.
  induction x as [ | c x IH]; [reflexivity | ].
  rewrite append_cons. cbn. rewrite IH, andb_assoc. reflexivity.
Qed.

Lemma partition_all_chars (P : Ascii.ascii -> bool) (sep s a r : string) :
  partition sep s = Some (a, r) ->
  all_chars P s = true -> all_chars P a = true.
Proof.
  intros Hp. rewrite (partition_app _ _ _ _ Hp), all_chars_app.
  intros H. apply andb_true_iff in H. tauto.
Qed.

Lemma prefix_cons (x c : Ascii.ascii) (p s : string) :
  String.prefix (String x p) (String c s) =
  if Ascii.ascii_dec x c then String.prefix p s else false.
Proof. reflexivity. Qed.

Lemma prefix_nil (s : string) : String.prefix "" s = true.
Proof. destruct s; reflexivity. Qed.

(** A text without '-f', then '-f': that is where the first '-f' is. *)
Lemma partition_fade (a r : string) :
  contains "-f" a = false ->
  partition "-f" (a +:+ "-f" +:+ r) = Some (a, r).
Proof.
  induction a as [ | c a IH].
  - intros _. rewrite append_nil, !append_cons, append_nil.
    destruct r; reflexivity.
  - rewrite contains_cons. intros H. apply orb_false_iff in H as [Hp Hc].
    rewrite append_cons, partition_cons, (IH Hc).
    destruct (String.prefix "-f" (String c (a +:+ "-f" +:+ r))) eqn:Hq;
      [ | reflexivity].
    exfalso. rewrite prefix_cons in Hp, Hq.
    destruct (Ascii.ascii_dec _ c) as [_ | ]; [ | discriminate Hq].
    destruct a as [ | c2 a].
    + rewrite append_nil, !append_cons, append_nil, prefix_cons in Hq.
      destruct (Ascii.ascii_dec _ _) as [E | ];
        [discriminate E | discriminate Hq].
    + rewrite append_cons, prefix_cons in Hq. rewrite prefix_cons in Hp.
      destruct (Ascii.ascii_dec _ c2); [ | discriminate Hq].
      rewrite prefix_nil in Hp. discriminate Hp.
Qed.

Lemma contains_fade (a r : string) : contains "-f" (a +:+ "-f" +:+ r) = true.
Proof.
  induction a as [ | c a IH].
  - rewrite append_nil, !append_cons, append_nil.
    destruct r; reflexivity.
  - rewrite append_cons, contains_cons, IH. apply orb_true_r.
Qed.

End TextFacts.

(** ** LightPlayer.get_express_config *)

Section ExpressConfig.

Import Str.

Variable float_repr : float -> string.
Variable string_to_ms : string -> result value.

Abbreviation express := (get_express_config float_repr string_to_ms).
Abbreviation text := (express_text float_repr).


Lemma express_text_app (x y : string) :
  text (VStr (x +:+ y)) = text (VStr x) +:+ text (VStr y).
Proof.
  unfold express_text. cbn [str_].
  rewrite without_spaces_app, lower_app. reflexivity.
Qed.

Lemma express_text_fade : text (VStr "-f") = "-f".
Proof. reflexivity. Qed.


(** The brightness that comes out holds no space, no capital letter and no
    '-f', and the configuration has the two keys [brightness] and [fade_ms]
    and nothing else. *)
Theorem get_express_config_brightness (v : value) (cfg : gmap string value) :
  express v = Ok cfg ->
  exists b fade,
    cfg = express_config b fade /\
    all_chars (fun c => negb (is_space c)) b = true /\
    all_chars (fun c => negb (is_upper c)) b = true /\
    contains "-f" b = false.
Proof.
  unfold get_express_config.
  assert (Hsp : all_chars (fun c => negb (is_space c)) (text v) = true).
  { apply lower_keeps_no_space, without_spaces_no_space. }
  assert (Hup : all_chars (fun c => negb (is_upper c)) (text v) = true).
  { apply lower_no_upper. }
  destruct (contains "-f" (text v)) eqn:Hc.
  - rewrite split_unfold by discriminate.
    rewrite partition_contains in Hc.
    destruct (partition "-f" (text v)) as [[a r] | ] eqn:Hp; [ | discriminate].
    cbn [nth].
    destruct (string_to_ms _) as [fade | e]; [ | discriminate].
    intros [= <-]. exists a, fade. repeat apply conj.
    + reflexivity.
    + exact (partition_all_chars _ _ _ _ _ Hp Hsp).
    + exact (partition_all_chars _ _ _ _ _ Hp Hup).
    + apply (partition_first "-f" _ _ _ ltac:(discriminate) Hp).
  - intros [= <-]. exists (text v), (VInt 0). repeat apply conj;
      [reflexivity | exact Hsp | exact Hup | exact Hc].
Qed.

Lemma express_fade (b rest : string) :
  contains "-f" b = false ->
  text (VStr b) = b -> text (VStr rest) = rest ->
  express (VStr (b +:+ "-f" +:+ rest)) =
  match string_to_ms (nth 0 (split "-f" rest) "") with
  | Ok fade => Ok (express_config b fade)
  | Raise e => Raise e
  end.
Proof.
  intros Hb Hnb Hnr. unfold get_express_config.
  rewrite !express_text_app, express_text_fade, Hnb, Hnr.
  rewrite contains_fade, split_unfold, (partition_fade b rest Hb)
    by discriminate.
  reflexivity.
Qed.

Lemma express_fade_once (b t : string) :
  contains "-f" b = false -> contains "-f" t = false ->
  text (VStr b) = b -> text (VStr t) = t ->
  express (VStr (b +:+ "-f" +:+ t)) =
  match string_to_ms t with
  | Ok fade => Ok (express_config b fade)
  | Raise e => Raise e
  end.
Proof.
  intros Hb Ht Hnb Hnt. rewrite express_fade by assumption.
  rewrite split_unfold by discriminate.
  rewrite partition_contains in Ht.
  destruct (partition "-f" t) as [[] | ]; [discriminate | reflexivity].
Qed.


(** Only the first fade time counts: what follows a second '-f' is
    dropped without a word. *)
Theorem get_express_config_ignores_second_fade (b t u : string) :
  contains "-f" b = false -> contains "-f" t = false ->
  text (VStr b) = b -> text (VStr t) = t -> text (VStr u) = u ->
  express (VStr (b +:+ "-f" +:+ t +:+ "-f" +:+ u)) =
  express (VStr (b +:+ "-f" +:+ t)).
Proof.
  intros Hb Ht Hnb Hnt Hnu.
  rewrite (express_fade_once b t) by assumption.
  rewrite express_fade; [ | assumption | assumption | ].
  - rewrite split_unfold, (partition_fade t u Ht) by discriminate.
    reflexivity.
  - rewrite !express_text_app, express_text_fade, Hnt, Hnu. reflexivity.
Qed.

End ExpressConfig.

Lemma get_express_config_brightness_witness :
  exists b fade,
    {[ "brightness" := VStr "ff"; "fade_ms" := VStr "100ms" ]} =
      express_config b fade /\
    Str.all_chars (fun c => negb (Str.is_space c)) b = true /\
    Str.all_chars (fun c => negb (Str.is_upper c)) b = true /\
    Str.contains "-f" b = false.
Proof.
  apply (get_express_config_brightness (fun _ => "") (fun s => Ok (VStr s))
           (VStr "FF -f 100ms")).
  reflexivity.
Defined.


Lemma get_express_config_ignores_second_fade_witness :
  get_express_config (fun _ => "") (fun s => Ok (VStr s))
    (VStr "ff-f100ms-f2s") =
  get_express_config (fun _ => "") (fun s => Ok (VStr s)) (VStr "ff-f100ms").
Proof.
  apply (get_express_config_ignores_second_fade (fun _ => "")
           (fun s => Ok (VStr s)) "ff" "100ms" "2s"); reflexivity.
Defined.

(** ** Driver.prepare_config *)

Section PrepareConfig.

Variable float_repr : float -> string.

Abbreviation prepare := (prepare_config float_repr).
Abbreviation str := (str_ float_repr).

Lemma prepare_config_run (c : loc) (w : world) (n : value) :
  deref c w !! "number" = Some n ->
  prepare c w =
  (setitem c "number_str" (VStr (Str.upper (str n))) w, Ok c).
Proof.
  intros H. unfold prepare_config, bind, getitem, modify, ret.
  rewrite H. reflexivity.
Qed.

(** Without a [number] the call raises [KeyError] and the dict is as it
    was. *)
Theorem prepare_config_needs_number (c : loc) (w : world) :
  deref c w !! "number" = None ->
  prepare c w = (w, Raise (KeyError "number")).
Proof.
  intros H. unfold prepare_config, bind, getitem. rewrite H. reflexivity.
Qed.


(** Preparing a dict twice leaves it as preparing it once did. *)
Theorem prepare_config_idempotent (c : loc) (w : world) (n : value) :
  deref c w !! "number" = Some n ->
  prepare c (fst (prepare c w)) = prepare c w.
Proof.
  intros H. rewrite (prepare_config_run c w n H). cbn [fst].
  assert (H' : deref c (setitem c "number_str" (VStr (Str.upper (str n))) w)
               !! "number" = Some n).
  { rewrite deref_setitem, lookup_insert_ne by discriminate. exact H. }
  rewrite (prepare_config_run _ _ n H'). f_equal.
  unfold setitem at 1. rewrite deref_setitem, insert_insert_eq.
  unfold setitem. cbn. rewrite insert_insert_eq. reflexivity.
Qed.

End PrepareConfig.

Lemma prepare_config_needs_number_witness :
  prepare_config (fun _ => "") 7%positive Example.machine0 =
  (Example.machine0, Raise (KeyError "number")).
Proof.
  apply (prepare_config_needs_number (fun _ => "") 7%positive Example.machine0).
  reflexivity.
Defined.


Lemma prepare_config_idempotent_witness :
  let w1 := fst (prepare_config (fun _ => "") 1%positive Example.machine0) in
  prepare_config (fun _ => "") 1%positive w1 =
  prepare_config (fun _ => "") 1%positive Example.machine0.
Proof.
  apply (prepare_config_idempotent (fun _ => "") 1%positive Example.machine0
           (VStr "A1-B0-3")).
  reflexivity.
Defined.

(** ** A pulse from start to end *)

Lemma pulse_software_summary (self : receiver) (ms : value) (w : world) :
  truthy ms = true ->
  hardware_timed (max_pulse (platform w)) ms = false ->
  let w1 := fst (pulse self ms VNone w) in
  name (driver w1) = name (driver w) /\
  delays w1 =
    Delay.reset (own_timer w) ms (bound_disable self) (delays w) /\
  hw_log w1 = hw_log w ++ [hw_enable self].
Proof.
  intros Hms Hsw. cbv zeta.
  rewrite (pulse_unfold self ms VNone w w ms)
    by (apply resolve_milliseconds_given, Hms).
  rewrite scale_by_power_none. cbn [fst snd].
  rewrite pulse_dispatch_software by exact Hsw. cbv zeta.
  destruct (done_time _ _); destruct self; repeat apply conj; reflexivity.
Qed.

Lemma remove_remove (nm : string) (ds : list delay) :
  Delay.remove nm (Delay.remove nm ds) = Delay.remove nm ds.
Proof. apply remove_nothing_pending, pending_remove. Qed.

(** A software-timed pulse ends in a disable.  When its timer comes due,
    the hardware driver has been enabled and then disabled, no timer of the
    actuator is left, and both [time_last_changed] and [time_when_done] are
    the time of the firing. *)
Theorem software_pulse_ends_in_disable (self : receiver) (ms : value)
    (now : float) (w : world) :
  truthy ms = true ->
  hardware_timed (max_pulse (platform w)) ms = false ->
  let i := length (Delay.remove (own_timer w) (delays w)) in
  let w' := run [call self (op_pulse ms VNone); tick now; due i] w in
  hw_log w' = hw_log w ++ [hw_enable self; hw_disable self] /\
  delays w' = Delay.remove (own_timer w) (delays w) /\
  attr_time_last_changed self w' = VFloat now /\
  attr_time_when_done self w' = VFloat now.
Proof.
  intros Hms Hsw. cbv zeta.
  destruct (pulse_software_summary self ms w Hms Hsw) as (Hn & Hd & Hh).
  cbn [run fold_left happen invoke].
  set (w1 := fst (pulse self ms VNone w)) in *.
  set (w2 := with_machine _ w1).
  assert (Hd2 : delays w2 =
                Delay.remove (own_timer w) (delays w) ++
                [{| delay_name := own_timer w; delay_ms := ms;
                    delay_callback := bound_disable self |}]).
  { exact Hd. }
  unfold fire. rewrite Hd2, list_lookup_middle by reflexivity.
  cbn [delay_callback].
  rewrite take_app_length.
  replace (S (length (Delay.remove (own_timer w) (delays w))))
    with (length (Delay.remove (own_timer w) (delays w)) + 1)%nat by lia.
  rewrite drop_app_add. cbn [drop]. rewrite app_nil_r.
  set (w3 := with_delays _ w2).
  rewrite disable_hw_log, disable_delays, disable_time_when_done,
    disable_time_last_changed.
  change (hw_log w3) with (hw_log w1).
  change (delays w3) with (Delay.remove (own_timer w) (delays w)).
  change (clock (machine w3)) with now.
  change (own_timer w3) with (timer_name (name (driver w1))).
  rewrite Hn. fold (own_timer w).
  rewrite Hh, <- app_assoc, remove_remove.
  repeat apply conj; reflexivity.
Qed.

Lemma software_pulse_ends_in_disable_witness :
  let w' := run [call the_driver (op_pulse (VInt 400) VNone); tick 13;
                 due 0%nat] Example.machine0 in
  hw_log w' = [hw_enable the_driver; hw_disable the_driver] /\
  delays w' = [] /\
  attr_time_last_changed the_driver w' = VFloat 13 /\
  attr_time_when_done the_driver w' = VFloat 13.
Proof.
  pose proof (software_pulse_ends_in_disable the_driver (VInt 400) 13
                Example.machine0 eq_refl eq_refl) as H.
  vm_compute in H. vm_compute. exact H.
Defined.

(** ** Whose timers they are *)

Lemma delays_from_same (w w' : world) :
  name (driver w') = name (driver w) ->
  delays w' = delays w ->
  delays_from w w'.
Proof.
  intros Hn Hd. split; [unfold own_timer; congruence | ].
  intros d H. left. congruence.
Qed.

Lemma in_remove (nm : string) (ds : list delay) (d : delay) :
  In d (Delay.remove nm ds) -> In d ds /\ delay_name d <> nm.
Proof.
  unfold Delay.remove. rewrite List.filter_In. intros [H1 H2].
  split; [exact H1 | ].
  apply negb_true_iff in H2. unfold Delay.named in H2.
  apply String.eqb_neq, H2.
Qed.

Lemma delays_from_remove (w w' : world) :
  name (driver w') = name (driver w) ->
  delays w' = Delay.remove (own_timer w) (delays w) ->
  delays_from w w'.
Proof.
  intros Hn Hd. split; [unfold own_timer; congruence | ].
  intros d H. left. rewrite Hd in H. apply in_remove in H. tauto.
Qed.

Lemma delays_from_reset (w w' : world) (ms : value) (cb : callback) :
  name (driver w') = name (driver w) ->
  delays w' = Delay.reset (own_timer w) ms cb (delays w) ->
  delays_from w w'.
Proof.
  intros Hn Hd. split; [unfold own_timer; congruence | ].
  intros d H. rewrite Hd in H. unfold Delay.reset in H.
  apply in_app_or in H as [H | [<- | []]].
  - left. apply in_remove in H. tauto.
  - right. reflexivity.
Qed.

Lemma delays_from_trans (w1 w2 w3 : world) :
  delays_from w1 w2 -> delays_from w2 w3 -> delays_from w1 w3.
Proof.
  intros [Ho1 H1] [Ho2 H2]. split; [congruence | ].
  intros d H. destruct (H2 d H) as [H' | H']; [apply H1, H' | ].
  right. congruence.
Qed.

Lemma pulse_delays_from (self : receiver) (ms power : value) (w : world) :
  delays_from w (fst (pulse self ms power w)).
Proof.
  rewrite pulse_cases.
  pose proof (resolve_milliseconds_same_objects self ms w) as Hso.
  destruct (resolve_milliseconds self ms w) as [w1 r]. cbn [fst] in Hso.
  assert (H1 : delays_from w w1).
  { apply delays_from_same; [rewrite (so_driver _ _ Hso) | apply Hso];
      reflexivity. }
  destruct r as [d | e]; [ | exact H1].
  destruct (scale_by_power d power) as [scaled | e]; [ | exact H1].
  apply (delays_from_trans _ _ _ H1).
  destruct (pulse_dispatch_delays self (fst scaled) (snd scaled) w1)
    as [Hn Hd].
  destruct (hardware_timed _ _).
  - apply delays_from_same; assumption.
  - eapply delays_from_reset; eassumption.
Qed.

Lemma install_delays_from (self : receiver) (c : platform_call) (sw : Switch)
    (w : world) :
  delays_from w (fst ((_check_platform self sw ;;; platform_do c) w)).
Proof.
  unfold bind, _check_platform, gets. cbn.
  destruct (negb _); apply delays_from_same; reflexivity.
Qed.

Lemma invoke_delays_from (self : receiver) (op : operation) (w : world) :
  delays_from w (fst (invoke self op w)).
Proof.
  destruct op; cbn [invoke].
  - apply delays_from_same; destruct self; reflexivity.
  - apply delays_from_remove; destruct self; reflexivity.
  - apply pulse_delays_from.
  - apply pulse_delays_from.
  - apply install_delays_from.
  - apply install_delays_from.
  - apply install_delays_from.
  - apply delays_from_same; reflexivity.
Qed.

Lemma in_without (i : nat) (ds : list delay) (d : delay) :
  In d (take i ds ++ drop (S i) ds) -> In d ds.
Proof.
  intros H. apply in_app_or in H as [H | H].
  - rewrite <- (take_drop i ds). apply in_or_app. left. exact H.
  - rewrite <- (take_drop (S i) ds). apply in_or_app. right. exact H.
Qed.

Lemma fire_delays_from (i : nat) (w : world) :
  delays_from w (fst (fire i w)).
Proof.
  unfold fire. destruct (delays w !! i) as [d | ] eqn:Hi.
  - set (w1 := with_delays (take i (delays w) ++ drop (S i) (delays w)) w).
    assert (H1 : delays_from w w1).
    { split; [reflexivity | ]. intros d' H. left. exact (in_without _ _ _ H). }
    destruct (delay_callback d) as [self | t]; [ | exact H1].
    apply (delays_from_trans _ _ _ H1).
    apply delays_from_remove; destruct self; reflexivity.
  - apply delays_from_same; reflexivity.
Qed.

Lemma happen_delays_from (e : event) (w : world) :
  delays_from w (happen e w).
Proof.
  destruct e as [self op | now | i]; cbn [happen].
  - apply invoke_delays_from.
  - apply delays_from_same; reflexivity.
  - apply fire_delays_from.
Qed.

Lemma timers_owned_of_run (es : list event) (w : world) :
  timers_owned w -> timers_owned (run es w).
Proof.
  revert w. induction es as [ | e es IH]; intros w Hw; [exact Hw | ].
  change (run (e :: es) w) with (run es (happen e w)). apply IH.
  destruct (happen_delays_from e w) as [Ho Hd].
  intros d Hin Hb. rewrite Ho.
  destruct (Hd d Hin) as [H | H]; [apply Hw; assumption | exact H].
Qed.

(** The only delays bound to the actuator's [disable] are the ones under
    its own timer name, whatever is called and whatever comes due. *)
Theorem timers_owned_invariant (es : list event) (w : world) :
  timers_owned w -> timers_owned (run es w).
Proof. apply timers_owned_of_run. Qed.

Lemma timers_owned_invariant_witness :
  timers_owned
    (run [call the_driver (op_pulse (VInt 400) VNone);
          call the_reconfigured (op_pulse (VInt 300) VNone);
          call the_driver op_enable] Example.machine0).
Proof.
  apply timers_owned_invariant. intros d [].
Defined.

(** ** What disable cancels *)

Lemma disable_no_timed_disable (self : receiver) (w : world) :
  timers_owned w -> no_timed_disable (fst (disable self w)).
Proof.
  intros Hw d Hin. rewrite disable_delays in Hin.
  apply in_remove in Hin as [Hin Hne].
  destruct (bound_to_disable d) eqn:Hb; [ | reflexivity].
  exfalso. apply Hne, Hw; assumption.
Qed.

Lemma fire_no_timed_disable (i : nat) (w : world) :
  no_timed_disable w ->
  no_timed_disable (fst (fire i w)) /\
  hw_log (fst (fire i w)) = hw_log w /\
  driver (fst (fire i w)) = driver w /\
  reconfigured (fst (fire i w)) = reconfigured w.
Proof.
  intros Hw. unfold fire. destruct (delays w !! i) as [d | ] eqn:Hi.
  - assert (Hd : bound_to_disable d = false).
    { apply Hw. apply list_elem_of_In, list_elem_of_lookup. eauto. }
    unfold bound_to_disable in Hd.
    destruct (delay_callback d) as [self | t]; [discriminate | ].
    cbn [fst]. repeat apply conj; try reflexivity.
    intros d' H. apply Hw. exact (in_without _ _ _ H).
  - cbn [fst]. repeat apply conj; try reflexivity. exact Hw.
Qed.

Lemma scheduler_run_quiet (es : list event) (w : world) :
  forallb scheduler_event es = true ->
  no_timed_disable w ->
  hw_log (run es w) = hw_log w /\
  driver (run es w) = driver w /\
  reconfigured (run es w) = reconfigured w.
Proof.
  revert w. induction es as [ | e es IH]; intros w Hes Hw.
  - repeat apply conj; reflexivity.
  - cbn [forallb] in Hes. apply andb_true_iff in Hes as [He Hes].
    change (run (e :: es) w) with (run es (happen e w)).
    destruct e as [self op | now | i]; [discriminate | | ]; cbn [happen].
    + destruct (IH (with_machine
                      {| clock := now;
                         default_pulse_ms := default_pulse_ms (machine w) |}
                      w) Hes Hw) as (H1 & H2 & H3).
      repeat apply conj; assumption.
    + destruct (fire_no_timed_disable i w Hw) as (Hq & H1 & H2 & H3).
      destruct (IH (fst (fire i w)) Hes Hq) as (H1' & H2' & H3').
      repeat apply conj; congruence.
Qed.

(** [disable] cancels for good.  Once it has returned, nothing the
    scheduler does on its own, the clock advancing or any pending delay
    coming due, sends a command to the hardware driver or changes the times
    kept on the driver or on the view. *)
Theorem disable_cancels (self : receiver) (es : list event) (w : world) :
  timers_owned w ->
  forallb scheduler_event es = true ->
  let w' := fst (disable self w) in
  hw_log (run es w') = hw_log w' /\
  driver (run es w') = driver w' /\
  reconfigured (run es w') = reconfigured w'.
Proof.
  intros Hw Hes. cbv zeta.
  apply scheduler_run_quiet; [exact Hes | ].
  apply disable_no_timed_disable, Hw.
Qed.

Lemma disable_cancels_witness :
  let w1 := run [call the_driver (op_pulse (VInt 400) VNone)]
              Example.machine0 in
  let w' := fst (disable the_driver w1) in
  length (delays w1) = 1%nat /\
  hw_log (run [tick 13; due 0%nat; due 1%nat] w') = hw_log w'.
Proof.
  cbv zeta. split; [vm_compute; reflexivity | ].
  apply (disable_cancels the_driver [tick 13; due 0%nat; due 1%nat]
           (run [call the_driver (op_pulse (VInt 400) VNone)]
              Example.machine0)).
  - apply timers_owned_of_run. intros d [].
  - reflexivity.
Defined.

(** ** The edges of pulse *)

(** A duration that is zero, empty or [None] is no duration: the pulse is
    the default pulse, not a pulse of no length. *)
Theorem pulse_falsy_is_default (self : receiver) (ms power : value) (w : world) :
  truthy ms = false ->
  pulse self ms power w = pulse self VNone power w.
Proof.
  intros H. unfold pulse, resolve_milliseconds. rewrite H. reflexivity.
Qed.

Lemma pulse_falsy_is_default_witness :
  pulse the_driver (VInt 0) VNone Example.machine0 =
  pulse the_driver VNone VNone Example.machine0 /\
  pulse the_driver (VStr "") VNone Example.machine0 =
  pulse the_driver VNone VNone Example.machine0.
Proof.
  split.
  - apply (pulse_falsy_is_default the_driver (VInt 0)). reflexivity.
  - apply (pulse_falsy_is_default the_driver (VStr "")). reflexivity.
Defined.

(** A driver whose configuration has no [pulse_ms] cannot be pulsed
    without a duration: the call raises [KeyError] before anything is sent
    or scheduled, and nothing has changed. *)
Theorem pulse_needs_pulse_ms (ms power : value) (w : world) :
  truthy ms = false ->
  deref (config (driver w)) w !! "pulse_ms" = None ->
  pulse the_driver ms power w = (w, Raise (KeyError "pulse_ms")).
Proof.
  intros Hms Hk.
  unfold pulse, resolve_milliseconds, bind, self_config, gets, getitem.
  rewrite Hms. cbn [negb fst snd]. rewrite Hk. reflexivity.
Qed.

Lemma pulse_needs_pulse_ms_witness :
  let w := with_store ∅ Example.machine0 in
  pulse the_driver VNone VNone w = (w, Raise (KeyError "pulse_ms")).
Proof.
  apply (pulse_needs_pulse_ms VNone VNone (with_store ∅ Example.machine0));
    reflexivity.
Defined.



(** A float power makes every pulse a software-timed one: the product is a
    float, and only an [int] goes to the hardware driver's [pulse].  However
    short the scaled pulse, the driver is enabled and a timer set. *)
Theorem float_power_is_software_timed (self : receiver) (ms : value)
    (w w1 : world) (z : Z) (f fz : float) :
  resolve_milliseconds self ms w = (w1, Ok (VInt z)) ->
  truthy (VFloat f) = true ->
  float_of_int z = Ok fz ->
  let w' := fst (pulse self ms (VFloat f) w) in
  hw_log w' = hw_log w ++ [hw_enable self] /\
  delays w' =
    Delay.reset (own_timer w) (VFloat (fz * f)) (bound_disable self)
      (delays w).
Proof.
  intros Hres Hf Hz. cbv zeta.
  pose proof (resolve_milliseconds_same_objects self ms w) as Hso.
  rewrite Hres in Hso. cbn [fst] in Hso.
  rewrite (pulse_unfold self ms (VFloat f) w w1 (VInt z) Hres).
  unfold scale_by_power. rewrite Hf. cbn [isinstance_int andb Py.mul].
  rewrite Hz. cbn [fst snd].
  rewrite pulse_dispatch_software by reflexivity. cbv zeta.
  destruct (done_time _ _); destruct self; same_objects_rewrite Hso;
    split; reflexivity.
Qed.

Lemma float_power_is_software_timed_witness :
  let w' := fst (pulse the_driver (VInt 30) (VFloat 0.5) Example.machine0) in
  hw_log w' = [hw_enable the_driver] /\
  delays w' =
    [{| delay_name := "c_flipper_timed_enable"; delay_ms := VFloat 15;
        delay_callback := bound_disable the_driver |}].
Proof.
  pose proof (float_power_is_software_timed the_driver (VInt 30)
                Example.machine0 Example.machine0 30 0.5 30
                eq_refl eq_refl eq_refl) as H.
  vm_compute in H. vm_compute. exact H.
Defined.

(** ** What the operations leave alone *)

Lemma pulse_dispatch_frame (self : receiver) (d p : value) (w : world) :
  let w' := fst (pulse_dispatch self d p w) in
  machine w' = machine w /\ platform w' = platform w /\
  name (driver w') = name (driver w) /\
  config (driver w') = config (driver w) /\
  _config_overwrite (reconfigured w') = _config_overwrite (reconfigured w) /\
  platform_log w' = platform_log w /\
  store w' = store w.
Proof.
  cbv zeta. destruct (hardware_timed (max_pulse (platform w)) d) eqn:Hhw.
  - rewrite pulse_dispatch_hardware by exact Hhw. cbv zeta.
    destruct (ne _ _); [destruct (done_time _ _) | ];
      destruct self; repeat apply conj; reflexivity.
  - rewrite pulse_dispatch_software by exact Hhw. cbv zeta.
    destruct (done_time _ _); destruct self; repeat apply conj; reflexivity.
Qed.

Lemma pulse_frame (self : receiver) (ms power : value) (w : world) :
  let w' := fst (pulse self ms power w) in
  machine w' = machine w /\ platform w' = platform w /\
  name (driver w') = name (driver w) /\
  config (driver w') = config (driver w) /\
  _config_overwrite (reconfigured w') = _config_overwrite (reconfigured w) /\
  platform_log w' = platform_log w.
Proof.
  cbv zeta. rewrite pulse_cases.
  pose proof (resolve_milliseconds_same_objects self ms w) as Hso.
  destruct (resolve_milliseconds self ms w) as [w1 r]. cbn [fst] in Hso.
  assert (H1 : machine w1 = machine w /\ platform w1 = platform w /\
               name (driver w1) = name (driver w) /\
               config (driver w1) = config (driver w) /\
               _config_overwrite (reconfigured w1) =
                 _config_overwrite (reconfigured w) /\
               platform_log w1 = platform_log w).
  { destruct Hso as [Hm Hp Hd Hr _ _ Hc _].
    rewrite Hm, Hp, Hd, Hr, Hc. repeat apply conj; reflexivity. }
  destruct r as [d | e]; [ | exact H1].
  destruct (scale_by_power d power) as [scaled | e]; [ | exact H1].
  destruct (pulse_dispatch_frame self (fst scaled) (snd scaled) w1)
    as (Hm & Hp & Hn & Hc & Ho & Hl & _).
  destruct H1 as (Hm1 & Hp1 & Hn1 & Hc1 & Ho1 & Hl1).
  repeat apply conj; congruence.
Qed.

Lemma install_frame (self : receiver) (c : platform_call) (sw : Switch)
    (w : world) :
  let w' := fst ((_check_platform self sw ;;; platform_do c) w) in
  machine w' = machine w /\ platform w' = platform w /\
  hw_log w' = hw_log w /\ delays w' = delays w /\
  driver w' = driver w /\ reconfigured w' = reconfigured w /\
  store w' = store w /\ debug_log w' = debug_log w.
Proof.
  cbv zeta. unfold bind, _check_platform, gets. cbn.
  destruct (negb _); repeat apply conj; reflexivity.
Qed.

(** The two halves of the class keep apart.  [enable], [disable], [pulse]
    and [timed_enable] never make a call on the platform's hardware rules;
    the rule calls never send a command to the hardware driver, never touch
    a delay, and leave the times and every dict as they were.  And no
    operation changes the driver's name, where its configuration is, the
    overrides of the view, the machine or the platform. *)
Theorem operations_keep_apart (self : receiver) (op : operation) (w : world) :
  let w' := fst (invoke self op w) in
  (machine w' = machine w /\ platform w' = platform w /\
   name (driver w') = name (driver w) /\
   config (driver w') = config (driver w) /\
   _config_overwrite (reconfigured w') = _config_overwrite (reconfigured w)) /\
  (rule_operation op = false -> platform_log w' = platform_log w) /\
  (rule_operation op = true ->
   hw_log w' = hw_log w /\ delays w' = delays w /\
   driver w' = driver w /\ reconfigured w' = reconfigured w /\
   store w' = store w /\ debug_log w' = debug_log w).
Proof.
  cbv zeta. destruct op; cbn [invoke rule_operation].
  - destruct self; repeat apply conj; try reflexivity; discriminate.
  - destruct self; repeat apply conj; try reflexivity; discriminate.
  - destruct (pulse_frame self milliseconds power w)
      as (Hm & Hp & Hn & Hc & Ho & Hl).
    repeat apply conj; try assumption; [intros _; exact Hl | discriminate].
  - destruct (pulse_frame self milliseconds VNone w)
      as (Hm & Hp & Hn & Hc & Ho & Hl).
    repeat apply conj; try assumption; [intros _; exact Hl | discriminate].
  - destruct (install_frame self (pulse_on_hit_and_release_rule sw self) sw w)
      as (Hm & Hp & Hh & Hd & Hdr & Hr & Hs & Hg).
    unfold set_pulse_on_hit_and_release_rule.
    rewrite Hm, Hp, Hdr, Hr. repeat apply conj; try reflexivity;
      [discriminate | intros _; repeat apply conj; first [assumption | reflexivity]].
  - destruct (install_frame self
                (pulse_on_hit_and_enable_and_release_rule sw self) sw w)
      as (Hm & Hp & Hh & Hd & Hdr & Hr & Hs & Hg).
    unfold set_pulse_on_hit_and_enable_and_release_rule.
    rewrite Hm, Hp, Hdr, Hr. repeat apply conj; try reflexivity;
      [discriminate | intros _; repeat apply conj; first [assumption | reflexivity]].
  - destruct (install_frame self (pulse_on_hit_rule sw self) sw w)
      as (Hm & Hp & Hh & Hd & Hdr & Hr & Hs & Hg).
    unfold set_pulse_on_hit_rule.
    rewrite Hm, Hp, Hdr, Hr. repeat apply conj; try reflexivity;
      [discriminate | intros _; repeat apply conj; first [assumption | reflexivity]].
  - repeat apply conj; try reflexivity; [discriminate | ].
    intros _. repeat apply conj; reflexivity.
Qed.

Lemma operations_keep_apart_witness :
  platform_log
    (fst (invoke the_driver (op_pulse (VInt 400) VNone) Example.machine0)) =
    [] /\
  hw_log
    (fst (invoke the_driver (op_set_pulse_on_hit_rule Example.switch_here)
            Example.machine0)) = [].
Proof.
  split.
  - apply (operations_keep_apart the_driver (op_pulse (VInt 400) VNone)
             Example.machine0). reflexivity.
  - apply (operations_keep_apart the_driver
             (op_set_pulse_on_hit_rule Example.switch_here) Example.machine0).
    reflexivity.
Defined.

Lemma invoke_keeps_config_loc (self : receiver) (op : operation) (w : world) :
  config (driver (fst (invoke self op w))) = config (driver w).
Proof.
  destruct op; cbn [invoke];
    try apply pulse_frame;
    try (destruct self; reflexivity);
    unfold set_pulse_on_hit_and_release_rule,
      set_pulse_on_hit_and_enable_and_release_rule, set_pulse_on_hit_rule,
      bind, _check_platform, gets; cbn;
    destruct (negb _); reflexivity.
Qed.

(** ** The view once it has been used *)

Lemma pulse_dispatch_driver_reconfigured (d p : value) (w : world) :
  reconfigured (fst (pulse_dispatch the_driver d p w)) = reconfigured w.
Proof.
  destruct (hardware_timed (max_pulse (platform w)) d) eqn:Hhw.
  - rewrite pulse_dispatch_hardware by exact Hhw. cbv zeta.
    destruct (ne _ _); [destruct (done_time _ _) | ]; reflexivity.
  - rewrite pulse_dispatch_software by exact Hhw. cbv zeta.
    destruct (done_time _ _); reflexivity.
Qed.

Lemma pulse_driver_reconfigured (ms power : value) (w : world) :
  reconfigured (fst (pulse the_driver ms power w)) = reconfigured w.
Proof.
  rewrite pulse_cases.
  pose proof (resolve_milliseconds_same_objects the_driver ms w) as Hso.
  destruct (resolve_milliseconds the_driver ms w) as [w1 [d | e]];
    cbn [fst] in Hso; [ | apply Hso].
  destruct (scale_by_power d power); [ | apply Hso].
  rewrite pulse_dispatch_driver_reconfigured. apply Hso.
Qed.

(** No call on the driver assigns an attribute of a view of it. *)
Lemma invoke_driver_reconfigured (op : operation) (w : world) :
  reconfigured (fst (invoke the_driver op w)) = reconfigured w.
Proof.
  destruct op; cbn [invoke];
    try reflexivity;
    try apply pulse_driver_reconfigured;
    apply (install_frame the_driver).
Qed.

(** A view follows its driver only until it is used.  While the view has
    no time attribute of its own it reads the driver's; once a method run
    on the view has set one, the view reads that value whatever is called
    on the driver afterwards. *)
Theorem view_stops_following (op : operation) (w : world) :
  let w' := fst (invoke the_driver op w) in
  (own_time_when_done (reconfigured w) = None ->
   attr_time_when_done the_reconfigured w' =
   attr_time_when_done the_driver w') /\
  (own_time_last_changed (reconfigured w) = None ->
   attr_time_last_changed the_reconfigured w' =
   attr_time_last_changed the_driver w') /\
  (forall v, own_time_when_done (reconfigured w) = Some v ->
             attr_time_when_done the_reconfigured w' = v) /\
  (forall v, own_time_last_changed (reconfigured w) = Some v ->
             attr_time_last_changed the_reconfigured w' = v).
Proof.
  cbv zeta. unfold attr_time_when_done, attr_time_last_changed.
  rewrite invoke_driver_reconfigured.
  repeat apply conj; intros; rewrite H; reflexivity.
Qed.

Lemma view_stops_following_witness :
  let w1 := fst (invoke the_reconfigured op_enable Example.machine0) in
  let w2 := fst (invoke the_driver op_disable w1) in
  attr_time_when_done the_reconfigured w2 = VInt (-1) /\
  attr_time_when_done the_driver w2 = VFloat 12.5.
Proof.
  cbv zeta. split; [ | reflexivity].
  apply (view_stops_following op_disable
           (fst (invoke the_reconfigured op_enable Example.machine0))).
  reflexivity.
Defined.

(** ** The driver's configuration over time *)

Lemma store_kept_refl (w : world) : store_kept w w.
Proof. intros l d H. exact H. Qed.

Lemma store_kept_trans (w1 w2 w3 : world) :
  store_kept w1 w2 -> store_kept w2 w3 -> store_kept w1 w3.
Proof. intros H1 H2 l d H. apply H2, H1, H. Qed.

Lemma store_kept_same (w w' : world) : store w' = store w -> store_kept w w'.
Proof. intros E l d H. rewrite E. exact H. Qed.

Lemma ReconfiguredDriver_config_store_kept (w : world) :
  store_kept w (fst (ReconfiguredDriver_config w)).
Proof.
  destruct (ReconfiguredDriver_config_store w) as (Hfresh & Hs & _).
  intros l d H. rewrite Hs; [exact H | ]. intros ->. congruence.
Qed.

Lemma self_config_store_kept (self : receiver) (w : world) :
  store_kept w (fst (self_config self w)).
Proof.
  destruct self; cbn [self_config].
  - apply store_kept_refl.
  - apply ReconfiguredDriver_config_store_kept.
Qed.

Lemma resolve_milliseconds_store_kept (self : receiver) (ms : value)
    (w : world) :
  store_kept w (fst (resolve_milliseconds self ms w)).
Proof.
  unfold resolve_milliseconds.
  destruct (truthy ms); cbn [negb]; [apply store_kept_refl | ].
  unfold bind.
  pose proof (self_config_store_kept self w) as H1.
  destruct (self_config self w) as [w1 [c | e]]; cbn [fst] in H1;
    [ | exact H1].
  pose proof (getitem_world c "pulse_ms" w1) as H2.
  destruct (getitem c "pulse_ms" w1) as [w2 [p | e]]; cbn [fst] in H2;
    subst w2; [ | exact H1].
  destruct (truthy p); [ | exact H1].
  pose proof (self_config_store_kept self w1) as H3.
  destruct (self_config self w1) as [w3 [c' | e]]; cbn [fst] in H3;
    [ | exact (store_kept_trans _ _ _ H1 H3)].
  rewrite (surjective_pairing (getitem c' "pulse_ms" w3)), getitem_world.
  exact (store_kept_trans _ _ _ H1 H3).
Qed.

Lemma pulse_store_kept (self : receiver) (ms power : value) (w : world) :
  store_kept w (fst (pulse self ms power w)).
Proof.
  rewrite pulse_cases.
  pose proof (resolve_milliseconds_store_kept self ms w) as H1.
  destruct (resolve_milliseconds self ms w) as [w1 [d | e]];
    cbn [fst] in H1; [ | exact H1].
  destruct (scale_by_power d power) as [scaled | e]; [ | exact H1].
  apply (store_kept_trans _ _ _ H1), store_kept_same.
  apply (pulse_dispatch_frame self (fst scaled) (snd scaled) w1).
Qed.

Lemma invoke_store_kept (self : receiver) (op : operation) (w : world) :
  store_kept w (fst (invoke self op w)).
Proof.
  destruct op; cbn [invoke];
    try apply pulse_store_kept;
    try (apply store_kept_same; destruct self; reflexivity);
    apply store_kept_same, (install_frame self).
Qed.

Lemma happen_store_kept (e : event) (w : world) :
  store_kept w (happen e w) /\
  config (driver (happen e w)) = config (driver w).
Proof.
  destruct e as [self op | now | i]; cbn [happen].
  - split; [apply invoke_store_kept | ].
    apply invoke_keeps_config_loc.
  - split; [apply store_kept_same | ]; reflexivity.
  - unfold fire. destruct (delays w !! i) as [d | ];
      [ | split; [apply store_kept_refl | reflexivity]].
    destruct (delay_callback d) as [self | t];
      [ | split; [apply store_kept_same | ]; reflexivity].
    split; [apply store_kept_same | ]; destruct self; reflexivity.
Qed.

Lemma run_keeps_config (es : list event) (w : world) :
  is_Some (store w !! config (driver w)) ->
  config (driver (run es w)) = config (driver w) /\
  deref (config (driver (run es w))) (run es w) =
  deref (config (driver w)) w.
Proof.
  revert w. induction es as [ | e es IH]; intros w Hw.
  - split; reflexivity.
  - change (run (e :: es) w) with (run es (happen e w)).
    destruct (happen_store_kept e w) as [Hk Hc].
    destruct Hw as [d Hd].
    assert (Hd' : store (happen e w) !! config (driver (happen e w)) = Some d).
    { rewrite Hc. apply Hk, Hd. }
    destruct (IH (happen e w) (ex_intro _ d Hd')) as [H1 H2].
    split; [congruence | ].
    rewrite H2. unfold deref. rewrite Hd', Hd. reflexivity.
Qed.

(** Nothing that happens ever changes the driver's configuration: through
    every sequence of calls on the driver and on the view, of ticks and of
    delays coming due, the driver keeps the same dict and the dict the same
    items. *)
Theorem driver_config_never_changes (es : list event) (w : world) :
  is_Some (store w !! config (driver w)) ->
  config (driver (run es w)) = config (driver w) /\
  deref (config (driver (run es w))) (run es w) =
  deref (config (driver w)) w.
Proof. apply run_keeps_config. Qed.

Lemma driver_config_never_changes_witness :
  let w' := run [call the_reconfigured (op_pulse VNone VNone);
                 call the_driver (op_pulse (VInt 400) VNone);
                 due 0%nat] Example.machine0 in
  deref (config (driver w')) w' = Example.coil_config.
Proof.
  apply (driver_config_never_changes
           [call the_reconfigured (op_pulse VNone VNone);
            call the_driver (op_pulse (VInt 400) VNone);
            due 0%nat] Example.machine0).
  exists Example.coil_config. reflexivity.
Defined.

(** ** Reading the configuration of a view, again *)

(** A view that overrides nothing, or only with [None], reads the
    configuration of its driver, item for item, from a dict of its own. *)
Theorem reconfigured_config_without_overrides (w : world) :
  (forall k v, _config_overwrite (reconfigured w) !! k = Some v ->
               is_None v = true) ->
  let out := ReconfiguredDriver_config w in
  exists l,
    snd out = Ok l /\
    store w !! l = None /\
    deref l (fst out) = deref (config (driver w)) w.
Proof.
  intros Hov. cbv zeta.
  destruct (ReconfiguredDriver_config_store w) as (Hfresh & _ & Hd).
  exists (fresh (dom (store w))). repeat apply conj;
    [reflexivity | exact Hfresh | ].
  apply map_eq. intros k. rewrite Hd. unfold overlaid.
  destruct (_config_overwrite (reconfigured w) !! k) as [v | ] eqn:Hk;
    [ | reflexivity].
  rewrite (Hov k v Hk). reflexivity.
Qed.

Lemma reconfigured_config_without_overrides_witness :
  let w := with_reconfigured
             (ReconfiguredDriver_init {[ "pulse_ms" := VNone ]})
             Example.machine0 in
  exists l,
    snd (ReconfiguredDriver_config w) = Ok l /\
    deref l (fst (ReconfiguredDriver_config w)) = Example.coil_config.
Proof.
  cbv zeta.
  destruct (reconfigured_config_without_overrides
              (with_reconfigured
                 (ReconfiguredDriver_init {[ "pulse_ms" := VNone ]})
                 Example.machine0)) as (l & H1 & _ & H2).
  - intros k v H. cbn in H.
    apply lookup_singleton_Some in H as [_ <-]. reflexivity.
  - exists l. split; [exact H1 | exact H2].
Defined.

(** Every read makes its own dict.  What a caller writes into the dict it
    got shows neither in the driver's configuration nor in the dict the
    next read returns; the dict written to keeps what was written. *)
Theorem reconfigured_config_reads_are_apart (k : string) (v : value)
    (w : world) :
  is_Some (store w !! config (driver w)) ->
  let base := deref (config (driver w)) w in
  let out1 := ReconfiguredDriver_config w in
  exists l1 l2,
    snd out1 = Ok l1 /\
    let w2 := setitem l1 k v (fst out1) in
    let out2 := ReconfiguredDriver_config w2 in
    snd out2 = Ok l2 /\
    l1 <> l2 /\
    (forall k', deref l2 (fst out2) !! k' =
                overlaid (_config_overwrite (reconfigured w)) base k') /\
    deref (config (driver (fst out2))) (fst out2) = base /\
    deref l1 (fst out2) !! k = Some v.
Proof.
  intros [d Hd]. cbv zeta.
  set (l1 := fresh (dom (store w))).
  set (w1 := fst (ReconfiguredDriver_config w)).
  set (w2 := setitem l1 k v w1).
  set (l2 := fresh (dom (store w2))).
  destruct (ReconfiguredDriver_config_store w) as (Hfresh & Hs & _).
  pose proof (ReconfiguredDriver_config_same_objects w) as Hso.
  fold l1 in Hfresh, Hs. fold w1 in Hs, Hso.
  assert (Hne : config (driver w) <> l1) by (intros E; congruence).
  assert (Hl1 : deref l1 w2 !! k = Some v).
  { subst w2. rewrite deref_setitem, lookup_insert_eq. reflexivity. }
  assert (Hd2 : store w2 !! config (driver w) = Some d).
  { subst w2. rewrite store_setitem_other by exact Hne.
    rewrite Hs by exact Hne. exact Hd. }
  assert (Hdrv : driver w2 = driver w) by (subst w2; apply Hso).
  assert (Hrec : reconfigured w2 = reconfigured w) by (subst w2; apply Hso).
  assert (Hbase : deref (config (driver w2)) w2 = deref (config (driver w)) w).
  { rewrite Hdrv. unfold deref. rewrite Hd2, Hd. reflexivity. }
  destruct (ReconfiguredDriver_config_store w2) as (Hfresh2 & Hs2 & Hread2).
  pose proof (ReconfiguredDriver_config_same_objects w2) as Hso2.
  fold l2 in Hfresh2, Hs2, Hread2.
  assert (Hl12 : l1 <> l2).
  { intros E. rewrite <- E in Hfresh2.
    assert (Hsome : is_Some (store w2 !! l1)).
    { subst w2. unfold setitem. cbn. rewrite lookup_insert_eq. eauto. }
    rewrite Hfresh2 in Hsome. destruct Hsome as [? ?]. discriminate. }
  exists l1, l2. split; [reflexivity | ].
  change (setitem l1 k v w1) with w2. cbv zeta. repeat apply conj.
  - reflexivity.
  - exact Hl12.
  - intros k'. rewrite Hread2, Hrec, Hbase. reflexivity.
  - rewrite (so_driver _ _ Hso2), Hdrv. unfold deref.
    rewrite Hs2 by (intros E; rewrite E in Hd2; congruence).
    rewrite Hd2, Hd. reflexivity.
  - unfold deref. rewrite Hs2 by exact Hl12. exact Hl1.
Qed.

Lemma reconfigured_config_reads_are_apart_witness :
  let out1 := ReconfiguredDriver_config Example.machine0 in
  let w2 := setitem 2%positive "pulse_ms" (VInt 99) (fst out1) in
  let out2 := ReconfiguredDriver_config w2 in
  snd out1 = Ok 2%positive /\
  snd out2 = Ok 3%positive /\
  deref 2%positive (fst out2) !! "pulse_ms" = Some (VInt 99) /\
  deref 3%positive (fst out2) !! "pulse_ms" = Some (VInt 50) /\
  deref 1%positive (fst out2) !! "pulse_ms" = Some (VInt 10).
Proof.
  pose proof (reconfigured_config_reads_are_apart "pulse_ms" (VInt 99)
                Example.machine0
                (ex_intro _ Example.coil_config eq_refl)) as H.
  cbv zeta in H. destruct H as (l1 & l2 & H1 & H2 & _).
  vm_compute in H1, H2. vm_compute. repeat apply conj; reflexivity.
Defined.
